(** * DeepDeck: a shallow embedding of the deck generator and its player

    The development follows the TypeScript sources:
    - [types.ts]                    the data model,
    - [services/geminiService.ts]   the content generation client,
    - [App.tsx]                     the generation orchestrator,
    - [components/Deck.tsx]         the audio decoder and the slide navigation,
    - [components/QuizCard.tsx]     the quiz card.

    JavaScript strings are sequences of UTF-16 code units, numbers used as
    indices are integers, sparse [Record<number, string>] objects are finite
    maps, and everything that suspends on the external service is replaced by
    the outcome of the call, supplied by the environment. *)

From Stdlib Require Import ZArith NArith List String Ascii Bool Lia.
From Stdlib Require Strings.Byte.
From stdpp Require Import base option list gmap.

Set Default Proof Using "Type".
Local Open Scope Z_scope.

(* ===================================================================== *)
(** * Part I: the program *)
(* ===================================================================== *)

(** ** JavaScript values used by the sources *)

Module JS.

(** A string is the list of its UTF-16 code units. *)
Definition jsstring : Type := list N.

(** The string denoted by a literal of the sources (ASCII only). *)
Definition js (s : string) : jsstring :=
  map N_of_ascii (list_ascii_of_string s).

(** [if (s)] on a string: the empty string is falsy. *)
Definition truthy (s : jsstring) : bool :=
  match s with [] => false | _ :: _ => true end.

(** [if (o)] on a [string | undefined]. *)
Definition truthy_opt (o : option jsstring) : bool :=
  match o with Some s => truthy s | None => false end.

(** [s.startsWith(p)]. *)
Fixpoint startsWith (s p : jsstring) : bool :=
  match p, s with
  | [], _ => true
  | _ :: _, [] => false
  | a :: p', b :: s' => N.eqb a b && startsWith s' p'
  end.

(** [s.includes(p)]. *)
Fixpoint includes (s p : jsstring) : bool :=
  startsWith s p ||
  match s with
  | [] => false
  | _ :: s' => includes s' p
  end.

(** A thrown value, as far as the sources inspect it: [err.message]. *)
Record JsError : Type := mkError { message : option jsstring }.

(** The message of a thrown value contains a phrase. *)
Definition carries (err : JsError) (phrase : jsstring) : Prop :=
  exists msg before after,
    message err = Some msg /\ msg = before ++ phrase ++ after.

(** The settlement of a promise. *)
Inductive settled (A : Type) : Type :=
| Resolve (a : A)
| Reject (e : JsError).
Arguments Resolve {A} a.
Arguments Reject {A} e.

(** A call that throws, or returns [undefined]. *)
Definition absent {A} (r : settled (option A)) : Prop :=
  match r with
  | Resolve (Some _) => False
  | Resolve None | Reject _ => True
  end.

End JS.
Import JS.

(** ** types.ts *)

Module Types.

Record VocabularyItem : Type := {
  term : jsstring;
  definition : jsstring
}.

Record QuizData : Type := {
  question : jsstring;
  options : list jsstring;
  correctIndex : Z
}.

Inductive SlideType : Type :=
| INTRO | DEEP_DIVE | VOCABULARY | SCENARIO | CONCLUSION.

Definition SlideType_eqb (a b : SlideType) : bool :=
  match a, b with
  | INTRO, INTRO | DEEP_DIVE, DEEP_DIVE | VOCABULARY, VOCABULARY
  | SCENARIO, SCENARIO | CONCLUSION, CONCLUSION => true
  | _, _ => false
  end.


(** [audioScript] is declared [string]; the payload is cast and never
    validated, and the orchestrator itself tests [!slide.audioScript], so
    the field is kept optional here to cover a payload that lacks it.
    [audioDurationEstimate] is a number that no code reads; it is kept as
    the integer number of seconds. *)
Record Slide : Type := {
  type : SlideType;
  title : jsstring;
  content : jsstring;
  audioScript : option jsstring;
  audioDurationEstimate : Z;
  visualPrompt : option jsstring;
  vocabulary : option (list VocabularyItem);
  quiz : option QuizData
}.

Record DeckContent : Type := {
  topic : jsstring;
  slides : list Slide
}.

Inductive AppState : Type := INPUT | LOADING | DECK | ERROR.

Record GeneratedAsset : Type := {
  deck : DeckContent;
  images : gmap nat jsstring;
  audio : gmap nat jsstring
}.

Inductive ImageSize : Type := Size1K | Size2K | Size4K.
Inductive VoiceAccent : Type := American | British | Indian | Nigerian.

End Types.
Import Types.

(** ** components/QuizCard.tsx *)

Module QuizCard.

(** The two [useState] cells of the component. *)
Record State : Type := {
  selectedIndex : option Z;
  isSubmitted : bool
}.

Definition initial : State :=
  {| selectedIndex := None; isSubmitted := false |}.

Definition handleSelect (index : Z) (st : State) : State :=
  if isSubmitted st then st
  else {| selectedIndex := Some index; isSubmitted := isSubmitted st |}.

Definition handleSubmit (st : State) : State :=
  match selectedIndex st with
  | None => st
  | Some _ => {| selectedIndex := selectedIndex st; isSubmitted := true |}
  end.

(** What the user can do to the card: click an option, click the
    [Check Answer] button. *)
Inductive Event : Type :=
| Select (index : Z)
| Submit.

Definition step (st : State) (ev : Event) : State :=
  match ev with
  | Select index => handleSelect index st
  | Submit => handleSubmit st
  end.

Definition run (evs : list Event) : State := fold_left step evs initial.

(** [selectedIndex === data.correctIndex]. *)
Definition isCorrect (data : QuizData) (st : State) : bool :=
  match selectedIndex st with
  | Some i => Z.eqb i (correctIndex data)
  | None => false
  end.

Inductive Verdict : Type :=
| Correct      (* "Correct! Great job." *)
| NotQuite.    (* "Not quite. Review the Deep Dive module." *)

(** The verdict box is rendered only when [isSubmitted]. *)
Definition verdict (data : QuizData) (st : State) : option Verdict :=
  if isSubmitted st then
    Some (if isCorrect data st then Correct else NotQuite)
  else None.

(** The invariant of the states the card can reach. *)
Definition inv (st : State) : Prop :=
  isSubmitted st = true -> is_Some (selectedIndex st).

End QuizCard.

(** ** components/Deck.tsx: slide navigation *)

Module Nav.

Inductive Direction : Type := forward | backward.

(** The navigation state of the player and the number of times it has
    called [onRestart]. *)
Record State : Type := {
  slideIndex : Z;
  direction : Direction;
  restarts : nat
}.

Definition initial : State :=
  {| slideIndex := 0; direction := forward; restarts := 0 |}.

(** [onClick] of the PREV button. *)
Definition prev (st : State) : State :=
  {| slideIndex := if 0 <? slideIndex st then slideIndex st - 1
                   else slideIndex st;
     direction := backward;
     restarts := restarts st |}.

(** [onClick] of the NEXT button, for a deck of [len] slides. *)
Definition next (len : Z) (st : State) : State :=
  if slideIndex st =? len - 1 then
    {| slideIndex := slideIndex st;
       direction := direction st;
       restarts := S (restarts st) |}
  else
    {| slideIndex := slideIndex st + 1;
       direction := forward;
       restarts := restarts st |}.

Inductive Event : Type := PREV | NEXT.

Definition step (len : Z) (st : State) (ev : Event) : State :=
  match ev with
  | PREV => prev st
  | NEXT => next len st
  end.

Definition run (slides : list Slide) (evs : list Event) : State :=
  fold_left (step (Z.of_nat (length slides))) evs initial.

(** The invariant of the states the player can reach. *)
Definition inBounds (len : Z) (st : State) : Prop :=
  0 <= slideIndex st < len.

End Nav.

(** ** components/Deck.tsx: the audio decoder *)

Module Base64.

Local Open Scope N_scope.

(** The base64 alphabet: [A-Z], [a-z], [0-9], [+], [/]. *)
Definition alphabet (n : N) : N :=
  if n <? 26 then 65 + n
  else if n <? 52 then 71 + n
  else if n <? 62 then n - 4
  else if n =? 62 then 43
  else 47.

Definition sextet (c : N) : option N :=
  if (65 <=? c) && (c <=? 90) then Some (c - 65)
  else if (97 <=? c) && (c <=? 122) then Some (c - 71)
  else if (48 <=? c) && (c <=? 57) then Some (c + 4)
  else if c =? 43 then Some 62
  else if c =? 47 then Some 63
  else None.

Definition pad : N := 61.   (* '=' *)

(** The encoding side of the service, which sends the samples as base64
    (RFC 4648, with padding). The 6-bit groups of a sequence of bytes,
    given as numbers below 256: *)
Fixpoint sixes (bs : list N) : list N :=
  match bs with
  | a :: b :: c :: rest =>
      a / 4 :: (a mod 4) * 16 + b / 16 :: (b mod 16) * 4 + c / 64
      :: c mod 64 :: sixes rest
  | [a; b] => [a / 4; (a mod 4) * 16 + b / 16; (b mod 16) * 4]
  | [a] => [a / 4; (a mod 4) * 16]
  | [] => []
  end.

Definition padding (len : nat) : jsstring :=
  match (len mod 3)%nat with
  | 1%nat => [pad; pad]
  | 2%nat => [pad]
  | _ => []
  end.

Definition encode (bs : list N) : jsstring :=
  map alphabet (sixes bs) ++ padding (length bs).

Definition btoa (bs : list Init.Byte.byte) : jsstring :=
  encode (map Strings.Byte.to_N bs).

(** [atob], the forgiving-base64 decode of the HTML standard. *)
Definition isAsciiWhitespace (c : N) : bool :=
  (c =? 9) || (c =? 10) || (c =? 12) || (c =? 13) || (c =? 32).

(** One [=] less at the front, if there is one. *)
Definition dropPad (data : jsstring) : jsstring :=
  match data with
  | c :: data' => if c =? pad then data' else data
  | [] => []
  end.

(** If the length is a multiple of four, one or two [=] at the end are
    removed. *)
Definition stripPadding (data : jsstring) : jsstring :=
  if (length data mod 4 =? 0)%nat then rev (dropPad (dropPad (rev data)))
  else data.

Fixpoint sextets (data : jsstring) : option (list N) :=
  match data with
  | [] => Some []
  | c :: data' =>
      match sextet c, sextets data' with
      | Some n, Some ns => Some (n :: ns)
      | _, _ => None
      end
  end.

(** Four sextets give three bytes; a final group of three gives two bytes
    and one of two gives one byte, the left-over bits being dropped. *)
Fixpoint bytesOf (ns : list N) : list N :=
  match ns with
  | a :: b :: c :: d :: rest =>
      (a * 4 + b / 16) :: ((b mod 16) * 16 + c / 4) :: ((c mod 4) * 64 + d)
      :: bytesOf rest
  | [a; b; c] => [a * 4 + b / 16; (b mod 16) * 16 + c / 4]
  | [a; b] => [a * 4 + b / 16]
  | _ => []
  end.

(** [None] is the [InvalidCharacterError] exception. The result is a
    binary string: one code unit below 256 per byte. *)
Definition atob (data : jsstring) : option jsstring :=
  let data := List.filter (fun c => negb (isAsciiWhitespace c)) data in
  let data := stripPadding data in
  if (length data mod 4 =? 1)%nat then None
  else option_map bytesOf (sextets data).

End Base64.

Module Wav.

Local Open Scope N_scope.

(** An [ArrayBuffer] is the list of its bytes. [None] is a [RangeError]. *)
Abbreviation ArrayBuffer := (list N).

Definition newArrayBuffer (n : nat) : ArrayBuffer := replicate n 0.

(** The [n] low bytes of a number, least significant first. *)
Fixpoint littleEndian (n : nat) (v : N) : list N :=
  match n with
  | O => []
  | S n => v mod 256 :: littleEndian n (v / 256)
  end.

(** Consecutive byte stores, from [offset] on. *)
Fixpoint store (view : ArrayBuffer) (offset : nat) (bytes : list N)
  : ArrayBuffer :=
  match bytes with
  | [] => view
  | b :: bytes' => store (<[offset := b]> view) (S offset) bytes'
  end.

Definition setUint8 (view : ArrayBuffer) (offset : nat) (v : N)
  : option ArrayBuffer :=
  if (offset + 1 <=? length view)%nat then
    Some (store view offset (littleEndian 1 (v mod 256)))
  else None.

(** [view.setUint16(offset, v, true)]: little endian, modulo [2^16]. *)
Definition setUint16 (view : ArrayBuffer) (offset : nat) (v : N)
  : option ArrayBuffer :=
  if (offset + 2 <=? length view)%nat then
    Some (store view offset (littleEndian 2 (v mod 65536)))
  else None.

(** [view.setUint32(offset, v, true)]: little endian, modulo [2^32]. *)
Definition setUint32 (view : ArrayBuffer) (offset : nat) (v : N)
  : option ArrayBuffer :=
  if (offset + 4 <=? length view)%nat then
    Some (store view offset (littleEndian 4 (v mod 4294967296)))
  else None.

(** [writeString(view, offset, string)]. *)
Fixpoint writeString (view : ArrayBuffer) (offset : nat) (s : jsstring)
  : option ArrayBuffer :=
  match s with
  | [] => Some view
  | c :: s' => view' ← setUint8 view offset c; writeString view' (S offset) s'
  end.

(** The loop [for (i = 0; i < len; i++) bytes[i] = binaryString.charCodeAt(i)]
    over the [Uint8Array] that starts at byte 44 of the buffer, from
    position [i] on. A store into a [Uint8Array] keeps the low 8 bits. *)
Fixpoint copyChars (buffer : ArrayBuffer) (i : nat) (chars : jsstring)
  : ArrayBuffer :=
  match chars with
  | [] => buffer
  | c :: chars' => copyChars (<[(44 + i)%nat := c mod 256]> buffer) (S i) chars'
  end.

(** [pcmToWavBlob]: the content of the [audio/wav] blob for which the
    function returns an object URL; [None] when [atob] throws. *)
Definition pcmToWavBlob (base64PCM : jsstring) : option ArrayBuffer :=
  binaryString ← Base64.atob base64PCM;
  let len := length binaryString in
  let buffer := newArrayBuffer (44 + len) in
  view ← writeString buffer 0 (js "RIFF");
  view ← setUint32 view 4 (36 + N.of_nat len);
  view ← writeString view 8 (js "WAVE");
  view ← writeString view 12 (js "fmt ");
  view ← setUint32 view 16 16;
  view ← setUint16 view 20 1;
  view ← setUint16 view 22 1;
  view ← setUint32 view 24 24000;
  view ← setUint32 view 28 (24000 * 2);
  view ← setUint16 view 32 2;
  view ← setUint16 view 34 16;
  view ← writeString view 36 (js "data");
  view ← setUint32 view 40 (N.of_nat len);
  Some (copyChars view 0 binaryString).

(** *** A reader of the canonical 44-byte RIFF/WAVE layout

    This is the reading side against which the decoder is checked: it is
    not part of the sources. *)

Fixpoint fromLittleEndian (bytes : list N) : N :=
  match bytes with
  | [] => 0
  | b :: bytes' => b + 256 * fromLittleEndian bytes'
  end.

Definition getUint16 (file : list N) (offset : nat) : N :=
  fromLittleEndian (take 2 (drop offset file)).

Definition getUint32 (file : list N) (offset : nat) : N :=
  fromLittleEndian (take 4 (drop offset file)).

Definition tagAt (file : list N) (offset : nat) (tag : string) : bool :=
  bool_decide (take 4 (drop offset file) = js tag).

Record Audio : Type := {
  riffSize : N;
  audioFormat : N;
  numChannels : N;
  sampleRate : N;
  byteRate : N;
  blockAlign : N;
  bitsPerSample : N;
  dataSize : N;
  samples : list N
}.

Definition read (file : list N) : option Audio :=
  if tagAt file 0 "RIFF" && tagAt file 8 "WAVE" && tagAt file 12 "fmt "
     && (getUint32 file 16 =? 16) && tagAt file 36 "data"
     && (getUint32 file 40 <=? N.of_nat (length file - 44))
  then
    Some {| riffSize := getUint32 file 4;
            audioFormat := getUint16 file 20;
            numChannels := getUint16 file 22;
            sampleRate := getUint32 file 24;
            byteRate := getUint32 file 28;
            blockAlign := getUint16 file 32;
            bitsPerSample := getUint16 file 34;
            dataSize := getUint32 file 40;
            samples := take (N.to_nat (getUint32 file 40)) (drop 44 file) |}
  else None.

(** The header of a PCM file of one channel at 24000 Hz with 16 bits per
    sample and [len] bytes of samples. *)
Definition canonicalHeader (len : N) : list N :=
  js "RIFF" ++ littleEndian 4 ((36 + len) mod 4294967296)
  ++ js "WAVE" ++ js "fmt " ++ littleEndian 4 16
  ++ littleEndian 2 1 ++ littleEndian 2 1
  ++ littleEndian 4 24000 ++ littleEndian 4 48000
  ++ littleEndian 2 2 ++ littleEndian 2 16
  ++ js "data" ++ littleEndian 4 (len mod 4294967296).

End Wav.

(** ** services/geminiService.ts *)

Module GeminiService.

(** *** The sanitization of the narration text *)

(** [text.replace(/c/g, by)] for a pattern that is one code unit and a
    replacement without [$] patterns. *)
Definition replaceAll (c : N) (by_ : jsstring) (text : jsstring) : jsstring :=
  flat_map (fun x => if N.eqb x c then by_ else [x]) text.

Definition SIGMA : N := 931%N.         (* U+03A3 *)
Definition DELTA : N := 916%N.         (* U+0394 *)
Definition NOT_EQUAL : N := 8800%N.    (* U+2260 *)
Definition ALMOST_EQUAL : N := 8776%N. (* U+2248 *)
Definition PLUS_MINUS : N := 177%N.    (* U+00B1 *)

(** The class [[\$\#\@\*\^\{\}\[\]]]. *)
Definition markup : list N :=
  [36; 35; 64; 42; 94; 123; 125; 91; 93]%N.

Definition isMarkup (x : N) : bool := existsb (N.eqb x) markup.

Definition stripMarkup (text : jsstring) : jsstring :=
  List.filter (fun x => negb (isMarkup x)) text.

Definition cleanText (text : jsstring) : jsstring :=
  stripMarkup
    (replaceAll PLUS_MINUS (js "plus or minus ")
      (replaceAll ALMOST_EQUAL (js "is approximately ")
        (replaceAll NOT_EQUAL (js "is not equal to ")
          (replaceAll DELTA (js "change in ")
            (replaceAll SIGMA (js "sum of ") text))))).

(** The code units that the sanitization rewrites or removes. *)
Definition special : list N :=
  [SIGMA; DELTA; NOT_EQUAL; ALMOST_EQUAL; PLUS_MINUS] ++ markup.

(** *** The three calls

    Every call awaits [ai.models.generateContent]; the settlement of that
    promise is what the service, the network and [JSON.parse] decide, and
    it is taken from the environment. *)

Section Client.

(** [response.text] of the deck request for a competency, if the request
    settles with a response. *)
Variable deckService : jsstring -> settled (option jsstring).

(** [JSON.parse(text) as DeckContent]: the deck the text denotes, or the
    [SyntaxError] that is thrown. The cast checks nothing. *)
Variable JSON_parse : jsstring -> settled DeckContent.

Definition generateDeckText (competency : jsstring) : settled DeckContent :=
  match deckService competency with
  | Reject e => Reject e
  | Resolve text =>
      if truthy_opt text then JSON_parse (default [] text)
      else Reject (mkError (Some (js "No content generated")))
  end.

(** The image request: the model, the prompt and the [imageSize] option;
    the response is the list of candidates, each the list of its parts,
    each part with the data of its [inlineData], if it has one. *)
Variable imageService :
  jsstring -> jsstring -> option ImageSize ->
  settled (list (list (option jsstring))).

Definition isHighRes (size : ImageSize) : bool :=
  match size with Size1K => false | Size2K | Size4K => true end.

Definition imageModel (size : ImageSize) : jsstring :=
  if isHighRes size then js "gemini-3-pro-image-preview"
  else js "gemini-2.5-flash-image".

Definition fullPrompt (imagePrompt : jsstring) : jsstring :=
  imagePrompt ++ js ". 3D claymation style, soft lighting, depth of field, mint green and soft purple colors. Bold legible labels.".

(** The first part that carries inline data, in candidate order. *)
Definition firstInlineData (candidates : list (list (option jsstring)))
  : option jsstring :=
  head (omap id (concat candidates)).

Definition generateDeckImage (imagePrompt : jsstring) (size : ImageSize)
  : settled (option jsstring) :=
  match imageService (imageModel size) (fullPrompt imagePrompt)
          (if isHighRes size then Some size else None) with
  | Resolve candidates =>
      match firstInlineData candidates with
      | Some data => Resolve (Some (js "data:image/png;base64," ++ data))
      | None => Resolve None      (* "No image data", caught *)
      end
  | Reject _ => Resolve None
  end.

(** The speech request: the voice and the prompt; the response is the
    outcome of [response.candidates?.[0]?.content?.parts?.[0]?.inlineData?.data]. *)
Variable speechService : jsstring -> jsstring -> settled (option jsstring).

Definition voiceName (accent : VoiceAccent) : jsstring :=
  match accent with
  | British => js "Puck"
  | American | Indian | Nigerian => js "Kore"
  end.

Definition accentInstr (accent : VoiceAccent) : jsstring :=
  match accent with
  | American => js "American English"
  | British => js "refined British English"
  | Indian => js "warm Indian English"
  | Nigerian => js "lively Nigerian English"
  end.

Definition promptText (text : jsstring) (accent : VoiceAccent) : jsstring :=
  js "Speak naturally in a " ++ accentInstr accent ++ js " accent: "
  ++ cleanText text.

Definition generateSlideAudio (text : jsstring) (accent : VoiceAccent)
  : settled (option jsstring) :=
  match speechService (voiceName accent) (promptText text accent) with
  | Resolve data => Resolve data
  | Reject _ => Resolve None
  end.

End Client.

End GeminiService.

(** ** App.tsx: the generation orchestrator *)

Module App.

(** The [useState] cells of [App]. *)
Record Model : Type := {
  state : AppState;
  competency : jsstring;
  imageSize : ImageSize;
  voiceAccent : VoiceAccent;
  generatedData : option GeneratedAsset;
  error : option jsstring;
  loadingStep : jsstring
}.

Definition initial : Model :=
  {| state := INPUT; competency := []; imageSize := Size1K;
     voiceAccent := American; generatedData := None; error := None;
     loadingStep := [] |}.

(** The calls that leave the orchestrator, in the order in which they are
    issued. *)
Inductive Call : Type :=
| HasSelectedApiKey
| OpenSelectKey
| GenerateDeckText (topic : jsstring)
| GenerateDeckImage (index : nat) (prompt : jsstring) (size : ImageSize)
| GenerateSlideAudio (index : nat) (script : jsstring) (accent : VoiceAccent).

Definition apiConfigurationError : jsstring :=
  js "API configuration error. Please select a valid project with an active billing account.".

Definition genericError : jsstring :=
  js "Failed to generate content. Please check your connection and try again.".

Section Orchestrator.

(** [window.aistudio], when the host provides it, with the answer of
    [hasSelectedApiKey()]. *)
Variable aistudio : option bool.

(** The settlement of [generateDeckText(topic)]. *)
Variable deckText : jsstring -> settled DeckContent.

(** The settlement of the [generateDeckImage] and [generateSlideAudio]
    calls issued for a slide position. The calls of a run are
    independent and are joined by [Promise.all], whose result lists them
    in the order of the positions, whatever the order of completion. *)
Variable deckImage :
  nat -> jsstring -> ImageSize -> settled (option jsstring).
Variable slideAudio :
  nat -> jsstring -> VoiceAccent -> settled (option jsstring).

Definition handleApiKeyCheck : list Call :=
  match aistudio with
  | Some hasKey =>
      HasSelectedApiKey :: (if hasKey then [] else [OpenSelectKey])
  | None => []
  end.

(** [slides.map((slide, index) => ({ slide, index }))]. *)
Definition indexed (slides : list Slide) : list (nat * Slide) :=
  imap (fun index slide => (index, slide)) slides.

Definition needsVisual (item : nat * Slide) : bool :=
  SlideType_eqb (type item.2) DEEP_DIVE && truthy_opt (visualPrompt item.2).

Definition slidesWithVisuals (slides : list Slide) : list (nat * Slide) :=
  List.filter needsVisual (indexed slides).

(** One guarded image task: its result and the call it issued. *)
Definition imageTask (size : ImageSize) (item : nat * Slide)
  : (nat * option jsstring) * list Call :=
  let index := item.1 in
  if truthy_opt (visualPrompt item.2) then
    let prompt := default [] (visualPrompt item.2) in
    (match deckImage index prompt size with
     | Resolve url => (index, url)
     | Reject _ => (index, None)
     end, [GenerateDeckImage index prompt size])
  else ((index, None), []).

(** One guarded audio task. *)
Definition audioTask (accent : VoiceAccent) (item : nat * Slide)
  : (nat * option jsstring) * list Call :=
  let index := item.1 in
  if truthy_opt (audioScript item.2) then
    let script := default [] (audioScript item.2) in
    (match slideAudio index script accent with
     | Resolve data => (index, data)
     | Reject _ => (index, None)
     end, [GenerateSlideAudio index script accent])
  else ((index, None), []).

(** [results.forEach(res => { if (res.url) map[res.index] = res.url })]. *)
Definition collect (results : list (nat * option jsstring))
  : gmap nat jsstring :=
  fold_left
    (fun m res =>
       if truthy_opt res.2 then <[res.1 := default [] res.2]> m else m)
    results ∅.

(** The [catch] block of [generateContent]. *)
Definition handleFailure (err : JsError) (m : Model) : Model * list Call :=
  if match message err with
     | Some msg => includes msg (js "Requested entity was not found")
     | None => false
     end
  then
    ({| state := ERROR; competency := competency m;
        imageSize := imageSize m; voiceAccent := voiceAccent m;
        generatedData := generatedData m;
        error := Some apiConfigurationError;
        loadingStep := loadingStep m |},
     match aistudio with Some _ => [OpenSelectKey] | None => [] end)
  else
    ({| state := ERROR; competency := competency m;
        imageSize := imageSize m; voiceAccent := voiceAccent m;
        generatedData := generatedData m;
        error := Some genericError;
        loadingStep := loadingStep m |}, []).

Definition generateContent (topic : jsstring) (size : ImageSize) (m : Model)
  : Model * list Call :=
  let m1 :=
    {| state := LOADING; competency := competency m;
       imageSize := imageSize m; voiceAccent := voiceAccent m;
       generatedData := generatedData m; error := None;
       loadingStep := js "Generating course structure (15 slides)..." |} in
  match deckText topic with
  | Reject err =>
      let (m2, calls) := handleFailure err m1 in
      (m2, handleApiKeyCheck ++ [GenerateDeckText topic] ++ calls)
  | Resolve deckContent =>
      let imageTasks :=
        map (imageTask size) (slidesWithVisuals (slides deckContent)) in
      let audioTasks :=
        map (audioTask (voiceAccent m)) (indexed (slides deckContent)) in
      ({| state := DECK; competency := competency m;
          imageSize := imageSize m; voiceAccent := voiceAccent m;
          generatedData :=
            Some {| deck := deckContent;
                    images := collect (map fst imageTasks);
                    audio := collect (map fst audioTasks) |};
          error := None;
          loadingStep := js "Designing infographics and recording audio..." |},
       handleApiKeyCheck ++ [GenerateDeckText topic]
       ++ concat (map snd imageTasks) ++ concat (map snd audioTasks))
  end.

(** The positions for which a run asked for an image, for a narration. *)
Definition imageRequests (calls : list Call) : list nat :=
  omap (fun c => match c with
                 | GenerateDeckImage index _ _ => Some index
                 | _ => None
                 end) calls.

Definition audioRequests (calls : list Call) : list nat :=
  omap (fun c => match c with
                 | GenerateSlideAudio index _ _ => Some index
                 | _ => None
                 end) calls.

End Orchestrator.

End App.

(** ** [JSON.parse]

    The platform function behind [generateDeckText], on the JSON grammar
    (ECMA-404). A number is kept as the decimal it denotes, [mantissa *
    10^exponent], rather than as the nearest double. *)

Module Json.

Local Open Scope N_scope.

#[local] Set Warnings "-register-all".

Inductive value : Type :=
| Null
| Bool (b : bool)
| Number (mantissa exponent : Z)
| String (s : jsstring)
| Array (elements : list value)
| Object (members : list (jsstring * value)).

Definition isWs (c : N) : bool :=
  (c =? 32) || (c =? 9) || (c =? 10) || (c =? 13).

Fixpoint skipWs (cs : list N) : list N :=
  match cs with
  | c :: cs' => if isWs c then skipWs cs' else cs
  | [] => []
  end.

Definition isDigit (c : N) : bool := (48 <=? c) && (c <=? 57).

Definition hexDigit (c : N) : option N :=
  if isDigit c then Some (c - 48)
  else if (65 <=? c) && (c <=? 70) then Some (c - 55)
  else if (97 <=? c) && (c <=? 102) then Some (c - 87)
  else None.

(** The characters of a string, after its opening quote. *)
Fixpoint parseString (cs : list N) : option (jsstring * list N) :=
  match cs with
  | [] => None
  | 34 :: rest => Some ([], rest)
  | 92 :: 117 :: h1 :: h2 :: h3 :: h4 :: rest =>
      a ← hexDigit h1; b ← hexDigit h2; c ← hexDigit h3; d ← hexDigit h4;
      r ← parseString rest;
      Some (((a * 16 + b) * 16 + c) * 16 + d :: r.1, r.2)
  | 92 :: e :: rest =>
      c ← (if e =? 34 then Some 34 else if e =? 92 then Some 92
           else if e =? 47 then Some 47 else if e =? 98 then Some 8
           else if e =? 102 then Some 12 else if e =? 110 then Some 10
           else if e =? 114 then Some 13 else if e =? 116 then Some 9
           else None);
      r ← parseString rest;
      Some (c :: r.1, r.2)
  | c :: rest =>
      if (c <? 32) || (c =? 92) then None
      else r ← parseString rest; Some (c :: r.1, r.2)
  end.

(** The longest prefix of digits, read as a decimal numeral after [acc]. *)
Fixpoint digits (acc : Z) (n : nat) (cs : list N) : Z * nat * list N :=
  match cs with
  | c :: cs' =>
      if isDigit c then digits (acc * 10 + Z.of_N (c - 48))%Z (S n) cs'
      else (acc, n, cs)
  | [] => (acc, n, [])
  end.

(** An optional minus sign, an integer part without leading zero, an
    optional fraction and an optional exponent. *)
Definition parseNumber (cs : list N) : option (value * list N) :=
  let '(negative, cs) :=
    match cs with 45 :: cs' => (true, cs') | _ => (false, cs) end in
  '(int, cs) ←
    match cs with
    | 48 :: cs' => Some (0%Z, cs')
    | _ => let '(i, n, cs') := digits 0 0 cs in
           if (n =? 0)%nat then None else Some (i, cs')
    end;
  '(mant, scale, cs) ←
    match cs with
    | 46 :: cs' => let '(m, n, cs'') := digits int 0 cs' in
                   if (n =? 0)%nat then None else Some (m, Z.of_nat n, cs'')
    | _ => Some (int, 0%Z, cs)
    end;
  '(exp, cs) ←
    match cs with
    | c :: cs' =>
        if (c =? 101) || (c =? 69) then
          let '(minus, cs') :=
            match cs' with
            | 45 :: cs'' => (true, cs'')
            | 43 :: cs'' => (false, cs'')
            | _ => (false, cs')
            end in
          let '(e, n, cs'') := digits 0 0 cs' in
          if (n =? 0)%nat then None
          else Some (if minus then (- e)%Z else e, cs'')
        else Some (0%Z, cs)
    | [] => Some (0%Z, cs)
    end;
  Some (Number (if negative then - mant else mant)%Z (exp - scale)%Z, cs).

Fixpoint parseValue (fuel : nat) (cs : list N) : option (value * list N) :=
  match fuel with
  | O => None
  | S fuel =>
      match skipWs cs with
      | 123 :: cs1 =>
          match skipWs cs1 with
          | 125 :: cs2 => Some (Object [], cs2)
          | cs2 => r ← parseMembers fuel cs2; Some (Object r.1, r.2)
          end
      | 91 :: cs1 =>
          match skipWs cs1 with
          | 93 :: cs2 => Some (Array [], cs2)
          | cs2 => r ← parseElements fuel cs2; Some (Array r.1, r.2)
          end
      | 34 :: cs1 => r ← parseString cs1; Some (String r.1, r.2)
      | 116 :: 114 :: 117 :: 101 :: cs1 => Some (Bool true, cs1)
      | 102 :: 97 :: 108 :: 115 :: 101 :: cs1 => Some (Bool false, cs1)
      | 110 :: 117 :: 108 :: 108 :: cs1 => Some (Null, cs1)
      | cs1 => parseNumber cs1
      end
  end
with parseElements (fuel : nat) (cs : list N)
  : option (list value * list N) :=
  match fuel with
  | O => None
  | S fuel =>
      r ← parseValue fuel cs;
      match skipWs r.2 with
      | 44 :: cs1 => rs ← parseElements fuel cs1; Some (r.1 :: rs.1, rs.2)
      | 93 :: cs1 => Some ([r.1], cs1)
      | _ => None
      end
  end
with parseMembers (fuel : nat) (cs : list N)
  : option (list (jsstring * value) * list N) :=
  match fuel with
  | O => None
  | S fuel =>
      match skipWs cs with
      | 34 :: cs1 =>
          k ← parseString cs1;
          match skipWs k.2 with
          | 58 :: cs2 =>
              r ← parseValue fuel cs2;
              match skipWs r.2 with
              | 44 :: cs3 =>
                  rs ← parseMembers fuel cs3;
                  Some ((k.1, r.1) :: rs.1, rs.2)
              | 125 :: cs3 => Some ([(k.1, r.1)], cs3)
              | _ => None
              end
          | _ => None
          end
      | _ => None
      end
  end.

(** [None] is the [SyntaxError]. Every call of the parser consumes input,
    so the length of the text bounds the recursion. *)
Definition parse (text : jsstring) : option value :=
  r ← parseValue (2 * length text + 2) text;
  if bool_decide (skipWs r.2 = []) then Some r.1 else None.

(** *** The typed view of a parsed payload

    [as DeckContent] is unchecked. A payload that has the declared shape
    denotes a deck; the typed model has no value for any other payload. *)

(** [obj.key]; of two members with the same key the later one wins. *)
Definition get (key : string) (v : value) : option value :=
  match v with
  | Object members =>
      snd <$> head (List.filter (fun m => bool_decide (m.1 = js key))
                      (rev members))
  | _ => None
  end.

Definition asString (v : value) : option jsstring :=
  match v with String s => Some s | _ => None end.

Definition asInteger (v : value) : option Z :=
  match v with
  | Number m e => if (0 <=? e)%Z then Some (m * 10 ^ e)%Z else None
  | _ => None
  end.

Definition asArray {A} (f : value -> option A) (v : value) : option (list A) :=
  match v with Array vs => mapM f vs | _ => None end.

(** An optional member: absent, or of the expected type. *)
Definition optional {A} (f : value -> option A) (o : option value)
  : option (option A) :=
  match o with
  | None => Some None
  | Some v => Some <$> f v
  end.

Definition asSlideType (v : value) : option SlideType :=
  s ← asString v;
  if bool_decide (s = js "INTRO") then Some INTRO
  else if bool_decide (s = js "DEEP_DIVE") then Some DEEP_DIVE
  else if bool_decide (s = js "VOCABULARY") then Some VOCABULARY
  else if bool_decide (s = js "SCENARIO") then Some SCENARIO
  else if bool_decide (s = js "CONCLUSION") then Some CONCLUSION
  else None.

Definition asVocabularyItem (v : value) : option VocabularyItem :=
  t ← get "term" v ≫= asString;
  d ← get "definition" v ≫= asString;
  Some {| term := t; definition := d |}.

Definition asQuizData (v : value) : option QuizData :=
  q ← get "question" v ≫= asString;
  os ← get "options" v ≫= asArray asString;
  c ← get "correctIndex" v ≫= asInteger;
  Some {| question := q; options := os; correctIndex := c |}.

Definition asSlide (v : value) : option Slide :=
  ty ← get "type" v ≫= asSlideType;
  ti ← get "title" v ≫= asString;
  co ← get "content" v ≫= asString;
  au ← optional asString (get "audioScript" v);
  du ← get "audioDurationEstimate" v ≫= asInteger;
  vi ← optional asString (get "visualPrompt" v);
  vo ← optional (asArray asVocabularyItem) (get "vocabulary" v);
  qu ← optional asQuizData (get "quiz" v);
  Some {| type := ty; title := ti; content := co; audioScript := au;
          audioDurationEstimate := du; visualPrompt := vi;
          vocabulary := vo; quiz := qu |}.

Definition asDeckContent (v : value) : option DeckContent :=
  t ← get "topic" v ≫= asString;
  ss ← get "slides" v ≫= asArray asSlide;
  Some {| topic := t; slides := ss |}.

(** [JSON.parse(text) as DeckContent] on the payloads the typed model
    covers. The message of the [SyntaxError] depends on the engine and is
    left out. *)
Definition parseDeck (text : jsstring) : settled DeckContent :=
  match parse text ≫= asDeckContent with
  | Some d => Resolve d
  | None => Reject (mkError None)
  end.

(** A JSON text written with ['] in place of the double quote. *)
Definition text (s : string) : jsstring :=
  map (fun c => if c =? 39 then 34 else c) (js s).

End Json.

(** ** Sample data on which the statements below are exercised *)

Module Fixtures.

Definition slide (ty : SlideType) (script prompt : option jsstring) : Slide :=
  {| type := ty; title := js "title"; content := js "content";
     audioScript := script; audioDurationEstimate := 30;
     visualPrompt := prompt; vocabulary := None; quiz := None |}.

(** Six slides of mixed kinds, with and without prompt and script. *)
Definition sampleDeck : DeckContent :=
  {| topic := js "supply and demand";
     slides :=
       [ slide INTRO (Some (js "Welcome.")) None;
         slide DEEP_DIVE (Some (js "Look at the diagram."))
               (Some (js "diagram of supply curve"));
         slide DEEP_DIVE (Some (js "No picture here.")) None;
         slide VOCABULARY None (Some (js "flash cards"));
         slide DEEP_DIVE (Some []) (Some (js "diagram of demand curve"));
         slide CONCLUSION (Some (js "Goodbye.")) (Some []) ] |}.

Definition deckText (topic : jsstring) : settled DeckContent :=
  Resolve sampleDeck.

(** The image call of position 4 throws; the others deliver. *)
Definition deckImage (index : nat) (prompt : jsstring) (size : ImageSize)
  : settled (option jsstring) :=
  if (index =? 4)%nat then Reject (mkError (Some (js "quota exceeded")))
  else Resolve (Some (js "data:image/png;base64,AAAA")).

(** The audio call of position 0 returns nothing, that of position 2
    throws; the others deliver. *)
Definition slideAudio (index : nat) (script : jsstring) (accent : VoiceAccent)
  : settled (option jsstring) :=
  if (index =? 0)%nat then Resolve None
  else if (index =? 2)%nat then Reject (mkError None)
  else Resolve (Some (js "AAEC")).

(** A deck request that the backend refuses. *)
Definition entityNotFound : JsError :=
  mkError (Some (js "Requested entity was not found.")).

Definition failingDeckText (topic : jsstring) : settled DeckContent :=
  Reject entityNotFound.

(** A deck service whose request is refused. *)
Definition refusingService (competency : jsstring)
  : settled (option jsstring) :=
  Reject entityNotFound.




End Fixtures.

(** ** More of the sources

    The rest of [components/QuizCard.tsx], [components/FlipCard.tsx],
    [components/Deck.tsx] and [App.tsx], on the definitions above. *)

(** *** String functions of the platform used by the components *)

Module JSText.

Local Open Scope N_scope.

(** The white space and line terminator code units that [trim] removes. *)
Definition whiteSpace : list N :=
  [9; 10; 11; 12; 13; 32; 160; 5760;
   8192; 8193; 8194; 8195; 8196; 8197; 8198; 8199; 8200; 8201; 8202;
   8232; 8233; 8239; 8287; 12288; 65279].

Definition isWhiteSpace (c : N) : bool := existsb (N.eqb c) whiteSpace.

Fixpoint trimStart (s : jsstring) : jsstring :=
  match s with
  | c :: s' => if isWhiteSpace c then trimStart s' else s
  | [] => []
  end.

(** [s.trim()]. *)
Definition trim (s : jsstring) : jsstring :=
  rev (trimStart (rev (trimStart s))).

(** [s.split(sep)] for a separator of one code unit: the pieces between
    the separators; the empty string gives one empty piece. *)
Fixpoint split (sep : N) (s : jsstring) : list jsstring :=
  match s with
  | [] => [[]]
  | c :: s' =>
      if c =? sep then [] :: split sep s'
      else match split sep s' with
           | piece :: pieces => (c :: piece) :: pieces
           | [] => [[c]]
           end
  end.

(** [pieces.join(sep)]. *)
Fixpoint join (sep : N) (pieces : list jsstring) : jsstring :=
  match pieces with
  | [] => []
  | [piece] => piece
  | piece :: pieces' => piece ++ sep :: join sep pieces'
  end.

Definition LF : N := 10.

End JSText.

(** *** components/QuizCard.tsx: what the card shows *)

Module QuizView.

(** The five class lists of [getOptionStyle]. *)
Inductive OptionStyle : Type :=
| Chosen      (* purple: selected, not yet submitted *)
| Plain       (* white: not selected, not yet submitted *)
| Right       (* green: the correct option, submitted *)
| Wrong       (* red: the selected option, when it is not correct *)
| Dimmed.     (* grey: any other option, submitted *)

(** [selectedIndex === index]. *)
Definition isSelected (st : QuizCard.State) (index : Z) : bool :=
  match QuizCard.selectedIndex st with
  | Some i => Z.eqb i index
  | None => false
  end.

Definition getOptionStyle (data : QuizData) (st : QuizCard.State) (index : Z)
  : OptionStyle :=
  if negb (QuizCard.isSubmitted st) then
    if isSelected st index then Chosen else Plain
  else if Z.eqb index (correctIndex data) then Right
  else if isSelected st index && negb (Z.eqb index (correctIndex data))
  then Wrong
  else Dimmed.

(** The check mark and the cross beside an option. *)
Definition showsCheck (data : QuizData) (st : QuizCard.State) (idx : Z)
  : bool :=
  QuizCard.isSubmitted st && Z.eqb idx (correctIndex data).

Definition showsCross (data : QuizData) (st : QuizCard.State) (idx : Z)
  : bool :=
  QuizCard.isSubmitted st && isSelected st idx
  && negb (Z.eqb idx (correctIndex data)).

(** The option buttons are those of [data.options.map]: a click selects an
    index of that list. *)
Definition rendered (data : QuizData) (ev : QuizCard.Event) : Prop :=
  match ev with
  | QuizCard.Select index => 0 <= index < Z.of_nat (length (options data))
  | QuizCard.Submit => True
  end.

End QuizView.

(** *** components/FlipCard.tsx *)

Module FlipCard.

(** The [isFlipped] cell and the [onClick] of the card. *)
Definition initial : bool := false.

Definition click (isFlipped : bool) : bool := negb isFlipped.

Definition run (clicks : nat) : bool := Nat.iter clicks click initial.

(** The card is turned to its back (class [rotate-y-180]) when flipped. *)
Inductive Face : Type := Term | Definition_.

Definition facing (isFlipped : bool) : Face :=
  if isFlipped then Definition_ else Term.

End FlipCard.

(** *** components/Deck.tsx: what the player shows *)

Module Player.

(** [slides[slideIndex]]: [None] is [undefined]. *)
Definition currentSlide (slides : list Slide) (st : Nav.State)
  : option Slide :=
  if 0 <=? Nav.slideIndex st then slides !! Z.to_nat (Nav.slideIndex st)
  else None.

(** [record[slideIndex]] on a sparse map. *)
Definition entry (record : gmap nat jsstring) (slideIndex : Z)
  : option jsstring :=
  if 0 <=? slideIndex then record !! Z.to_nat slideIndex else None.

(** The footer. *)
Definition prevDisabled (st : Nav.State) : bool := Nav.slideIndex st =? 0.

Inductive NextLabel : Type := FINISH_MODULE | NEXT_SLIDE.

Definition nextLabel (len : Z) (st : Nav.State) : NextLabel :=
  if Nav.slideIndex st =? len - 1 then FINISH_MODULE else NEXT_SLIDE.

Definition showsArrow (len : Z) (st : Nav.State) : bool :=
  Nav.slideIndex st <? len - 1.

(** The header: "Slide [slideIndex + 1] / [slides.length]". *)
Definition slideNumber (st : Nav.State) : Z := Nav.slideIndex st + 1.

(** The paragraphs of a slide: the lines of the content that are not
    blank, as they are. *)
Definition paragraphs (content : jsstring) : list jsstring :=
  List.filter (fun p => truthy (JSText.trim p))
    (JSText.split JSText.LF content).

(** The five layouts of [renderSlideContent], with what each one shows:
    the image or, without one, the placeholder; the flip cards; the quiz. *)
Inductive View : Type :=
| IntroView (title : jsstring) (body : list jsstring)
| DeepDiveView (title : jsstring) (body : list jsstring)
               (image : option jsstring)
| VocabularyView (title : jsstring) (cards : list VocabularyItem)
| ScenarioView (title : jsstring) (body : jsstring) (quiz : option QuizData)
| ConclusionView (title : jsstring) (body : jsstring)
                 (quiz : option QuizData).

(** [renderSlideContent(slide)] in a player at [slideIndex]. *)
Definition renderSlideContent (data : GeneratedAsset) (slideIndex : Z)
  (slide : Slide) : View :=
  match type slide with
  | INTRO => IntroView (title slide) (paragraphs (content slide))
  | DEEP_DIVE =>
      let imageUrl := entry (images data) slideIndex in
      DeepDiveView (title slide) (paragraphs (content slide))
        (if truthy_opt imageUrl then imageUrl else None)
  | VOCABULARY => VocabularyView (title slide) (default [] (vocabulary slide))
  | SCENARIO => ScenarioView (title slide) (content slide) (quiz slide)
  | CONCLUSION => ConclusionView (title slide) (content slide) (quiz slide)
  end.

(** The slide container: [renderSlideContent(currentSlide)]. Reading
    [slide.type] of [undefined] throws; [None] is that [TypeError]. *)
Definition render (data : GeneratedAsset) (st : Nav.State) : option View :=
  renderSlideContent data (Nav.slideIndex st)
  <$> currentSlide (slides (deck data)) st.

End Player.

(** *** components/Deck.tsx: the narration of the current slide *)

Module Playback.

(** The [HTMLAudioElement] of the player: its source and whether it is
    playing. *)
Record AudioElement : Type := {
  src : option nat;
  playing : bool
}.

(** The refs of the player and the object URLs of the page that are not
    revoked, each with the bytes of its blob. An object URL is named by a
    number; [URL.createObjectURL] returns a new one at every call. *)
Record State : Type := {
  audioRef : option AudioElement;
  currentAudioUrl : option nat;
  objectURLs : gmap nat (list N);
  created : nat
}.

Definition unmounted : State :=
  {| audioRef := None; currentAudioUrl := None; objectURLs := ∅;
     created := 0 |}.

(** The effect of the first render: [audioRef.current = new Audio()]. *)
Definition mount (st : State) : State :=
  {| audioRef := Some {| src := None; playing := false |};
     currentAudioUrl := currentAudioUrl st;
     objectURLs := objectURLs st;
     created := created st |}.

(** Its clean-up: the element is paused and dropped. *)
Definition unmount (st : State) : State :=
  {| audioRef := None;
     currentAudioUrl := currentAudioUrl st;
     objectURLs := objectURLs st;
     created := created st |}.

(** [playAudio], which runs when the slide, the mute flag or the audio map
    changes. [autoplay] tells whether [play()] is allowed to start; a
    refusal is caught. When [pcmToWavBlob] throws, the exception ends the
    function after the pause and the revocation. *)
Definition playAudio (audio : gmap nat jsstring) (slideIndex : Z)
  (isMuted autoplay : bool) (st : State) : State :=
  match audioRef st with
  | None => st
  | Some element =>
      let paused := {| src := src element; playing := false |} in
      let urls :=
        match currentAudioUrl st with
        | Some url => delete url (objectURLs st)
        | None => objectURLs st
        end in
      let quiet :=
        {| audioRef := Some paused; currentAudioUrl := None;
           objectURLs := urls; created := created st |} in
      if isMuted then quiet
      else
        let pcmData := Player.entry audio slideIndex in
        if truthy_opt pcmData then
          match Wav.pcmToWavBlob (default [] pcmData) with
          | Some blob =>
              let url := created st in
              {| audioRef := Some {| src := Some url; playing := autoplay |};
                 currentAudioUrl := Some url;
                 objectURLs := <[url := blob]> urls;
                 created := S (created st) |}
          | None => quiet
          end
        else quiet
  end.

(** One run of [playAudio]: the slide shown, the mute flag, the answer of
    the autoplay policy. *)
Record Run : Type := {
  slideIndex : Z;
  isMuted : bool;
  autoplay : bool
}.

Definition step (audio : gmap nat jsstring) (st : State) (r : Run) : State :=
  playAudio audio (slideIndex r) (isMuted r) (autoplay r) st.

(** The life of a player: mounted, then any number of runs. *)
Definition run (audio : gmap nat jsstring) (rs : list Run) : State :=
  fold_left (step audio) rs (mount unmounted).

(** The narration progress bar is shown when the player is not muted and
    the slide has audio. *)
Definition showsProgress (audio : gmap nat jsstring) (slideIndex : Z)
  (isMuted : bool) : bool :=
  negb isMuted && truthy_opt (Player.entry audio slideIndex).

End Playback.

(** *** App.tsx: the form, the shared link, the way back *)

Module AppUI.

Section Handlers.

Variable aistudio : option bool.
Variable deckText : jsstring -> settled DeckContent.
Variable deckImage :
  nat -> jsstring -> ImageSize -> settled (option jsstring).
Variable slideAudio :
  nat -> jsstring -> VoiceAccent -> settled (option jsstring).

(** [handleSubmit]. *)
Definition handleSubmit (m : App.Model) : App.Model * list App.Call :=
  if truthy (JSText.trim (App.competency m)) then
    App.generateContent aistudio deckText deckImage slideAudio
      (App.competency m) (App.imageSize m) m
  else (m, []).

(** The button of the form is disabled on the same test. *)
Definition submitDisabled (m : App.Model) : bool :=
  negb (truthy (JSText.trim (App.competency m))).

(** The effect of the first render, given [params.get('topic')]. *)
Definition onLoad (sharedTopic : option jsstring) (m : App.Model)
  : App.Model * list App.Call :=
  if truthy_opt sharedTopic then
    let topic := default [] sharedTopic in
    App.generateContent aistudio deckText deckImage slideAudio topic Size1K
      {| App.state := App.state m; App.competency := topic;
         App.imageSize := App.imageSize m;
         App.voiceAccent := App.voiceAccent m;
         App.generatedData := App.generatedData m;
         App.error := App.error m;
         App.loadingStep := App.loadingStep m |}
  else (m, []).

End Handlers.

(** [onRestart], passed to the player. *)
Definition onRestart (m : App.Model) : App.Model :=
  {| App.state := INPUT; App.competency := [];
     App.imageSize := App.imageSize m;
     App.voiceAccent := App.voiceAccent m;
     App.generatedData := App.generatedData m;
     App.error := App.error m;
     App.loadingStep := App.loadingStep m |}.

(** The [Try Again] button of the error screen. *)
Definition tryAgain (m : App.Model) : App.Model :=
  {| App.state := INPUT; App.competency := App.competency m;
     App.imageSize := App.imageSize m;
     App.voiceAccent := App.voiceAccent m;
     App.generatedData := App.generatedData m;
     App.error := App.error m;
     App.loadingStep := App.loadingStep m |}.

(** Which screen [App] renders. The player needs both the state [DECK]
    and the bundle. *)
Inductive Screen : Type :=
| InputScreen
| LoadingScreen
| ErrorScreen (message : option jsstring)
| DeckScreen (data : GeneratedAsset)
| Blank.

Definition screen (m : App.Model) : Screen :=
  match App.state m with
  | INPUT => InputScreen
  | LOADING => LoadingScreen
  | ERROR => ErrorScreen (App.error m)
  | DECK =>
      match App.generatedData m with
      | Some data => DeckScreen data
      | None => Blank
      end
  end.

End AppUI.

(** *** The orchestrator on the client of [geminiService.ts] *)

Module Wiring.

Section Wired.

(** The answers of the image and speech services to the request issued for
    a slide position. *)
Variable imageServiceAt :
  nat -> jsstring -> jsstring -> option ImageSize ->
  settled (list (list (option jsstring))).
Variable speechServiceAt :
  nat -> jsstring -> jsstring -> settled (option jsstring).

Definition deckImage (index : nat) (prompt : jsstring) (size : ImageSize)
  : settled (option jsstring) :=
  GeminiService.generateDeckImage (imageServiceAt index) prompt size.

Definition slideAudio (index : nat) (script : jsstring)
  (accent : VoiceAccent) : settled (option jsstring) :=
  GeminiService.generateSlideAudio (speechServiceAt index) script accent.

End Wired.

End Wiring.

(* ===================================================================== *)
(** * Part II: properties *)
(* ===================================================================== *)

(** ** The quiz card *)

Module QuizCardFacts.
Import QuizCard.

Lemma quiz_run_snoc evs ev : run (evs ++ [ev]) = step (run evs) ev.
Proof. unfold run. now rewrite fold_left_app. Qed.

Lemma quiz_run_app evs more : run (evs ++ more) = fold_left step more (run evs).
Proof. unfold run. now rewrite fold_left_app. Qed.

(** A submitted card ignores every event. *)
Lemma step_submitted st ev : isSubmitted st = true -> step st ev = st.
Proof.
  destruct st as [sel sub], ev; simpl; intros ->; unfold handleSelect, handleSubmit;
    simpl; try reflexivity.
  now destruct sel.
Qed.

Lemma steps_submitted st evs :
  isSubmitted st = true -> fold_left step evs st = st.
Proof.
  intros Hsub. induction evs as [|ev evs IH]; simpl; [reflexivity|].
  now rewrite step_submitted.
Qed.

Lemma step_inv st ev : inv st -> inv (step st ev).
Proof.
  unfold inv. destruct st as [sel sub], ev; simpl;
    unfold handleSelect, handleSubmit; simpl.
  - destruct sub; simpl; [tauto | discriminate].
  - destruct sel; simpl; eauto.
Qed.

Lemma run_inv evs : inv (run evs).
Proof.
  induction evs as [|ev evs IH] using rev_ind.
  - unfold inv; simpl; discriminate.
  - rewrite quiz_run_snoc. now apply step_inv.
Qed.

End QuizCardFacts.

(** C10. Quiz-card state invariant: [Check Answer] submits only when an option
    is selected; in a submitted state the selection is not null, it is never
    changed by later clicks, and the verdict shown is "correct" exactly when
    the selected index is the quiz's [correctIndex]. *)
Theorem quiz_card_invariant (data : QuizData) (evs : list QuizCard.Event) :
  (QuizCard.selectedIndex (QuizCard.run evs) = None ->
   QuizCard.isSubmitted (QuizCard.run (evs ++ [QuizCard.Submit])) = false) /\
  (QuizCard.isSubmitted (QuizCard.run evs) = true ->
   exists i : Z,
     QuizCard.selectedIndex (QuizCard.run evs) = Some i /\
     (forall more, QuizCard.run (evs ++ more) = QuizCard.run evs) /\
     (QuizCard.verdict data (QuizCard.run evs) = Some QuizCard.Correct
      <-> i = correctIndex data) /\
     (QuizCard.verdict data (QuizCard.run evs) = Some QuizCard.NotQuite
      <-> i <> correctIndex data)).
Proof.
  split.
  - intros Hnone. rewrite QuizCardFacts.quiz_run_snoc. simpl.
    unfold QuizCard.handleSubmit. rewrite Hnone.
    pose proof (QuizCardFacts.run_inv evs) as Hinv. unfold QuizCard.inv in Hinv.
    destruct (QuizCard.isSubmitted (QuizCard.run evs)); [|reflexivity].
    destruct (Hinv eq_refl) as [i Hi]. congruence.
  - intros Hsub.
    destruct (QuizCardFacts.run_inv evs Hsub) as [i Hi].
    exists i. split; [exact Hi|]. split.
    + intros more. rewrite QuizCardFacts.quiz_run_app.
      now apply QuizCardFacts.steps_submitted.
    + unfold QuizCard.verdict, QuizCard.isCorrect. rewrite Hsub, Hi.
      destruct (Z.eqb_spec i (correctIndex data)); split; split;
        intros; try congruence; try reflexivity.
Qed.

(** A run of the card on which the theorem is exercised: select option 2,
    change to option 1, submit, click option 0. *)
Lemma quiz_card_invariant_witness :
  QuizCard.verdict
    {| question := js "q"; options := [js "a"; js "b"; js "c"]; correctIndex := 1 |}
    (QuizCard.run [QuizCard.Select 2; QuizCard.Select 1; QuizCard.Submit;
                   QuizCard.Select 0])
  = Some QuizCard.Correct.
Proof.
  destruct (quiz_card_invariant
              {| question := js "q"; options := [js "a"; js "b"; js "c"];
                 correctIndex := 1 |}
              [QuizCard.Select 2; QuizCard.Select 1; QuizCard.Submit;
               QuizCard.Select 0]) as [_ H].
  destruct (H eq_refl) as (i & Hi & _ & Hc & _).
  apply Hc. vm_compute in Hi. injection Hi as <-. reflexivity.
Defined.

(** ** Slide navigation *)

Module NavFacts.
Import Nav.

Lemma nav_run_snoc slides evs ev :
  run slides (evs ++ [ev])
  = step (Z.of_nat (length slides)) (run slides evs) ev.
Proof. unfold run. now rewrite fold_left_app. Qed.

Lemma step_inBounds len st ev :
  inBounds len st -> inBounds len (step len st ev).
Proof.
  unfold inBounds. destruct ev; simpl.
  - destruct (Z.ltb_spec 0 (slideIndex st)); lia.
  - unfold next. destruct (Z.eqb_spec (slideIndex st) (len - 1)); simpl; lia.
Qed.

Lemma run_inBounds slides evs :
  slides <> [] -> inBounds (Z.of_nat (length slides)) (run slides evs).
Proof.
  intros Hne. induction evs as [|ev evs IH] using rev_ind.
  - unfold inBounds; simpl. destruct slides; [congruence | simpl; lia].
  - rewrite nav_run_snoc. now apply step_inBounds.
Qed.

End NavFacts.

(** C9. Slide-navigation invariant: from index 0, every sequence of PREV and
    NEXT clicks on a non-empty deck leaves the index between 0 and
    [slides.length - 1]; PREV at index 0 does not decrement; NEXT at the last
    index calls [onRestart] and does not increment. *)
Theorem navigation_in_bounds (slides : list Slide) (evs : list Nav.Event) :
  slides <> [] ->
  let len := Z.of_nat (length slides) in
  let st := Nav.run slides evs in
  0 <= Nav.slideIndex st <= len - 1 /\
  (Nav.slideIndex st = 0 ->
   Nav.slideIndex (Nav.run slides (evs ++ [Nav.PREV])) = 0) /\
  (Nav.slideIndex st = len - 1 ->
   Nav.slideIndex (Nav.run slides (evs ++ [Nav.NEXT])) = len - 1 /\
   Nav.restarts (Nav.run slides (evs ++ [Nav.NEXT])) = S (Nav.restarts st)) /\
  (Nav.slideIndex st <> len - 1 ->
   Nav.slideIndex (Nav.run slides (evs ++ [Nav.NEXT])) = Nav.slideIndex st + 1 /\
   Nav.restarts (Nav.run slides (evs ++ [Nav.NEXT])) = Nav.restarts st).
Proof.
  intros Hne len st.
  pose proof (NavFacts.run_inBounds slides evs Hne) as Hb.
  unfold Nav.inBounds in Hb. fold len st in Hb.
  split; [lia|]. rewrite !NavFacts.nav_run_snoc. fold len st. simpl.
  unfold Nav.next. split; [|split].
  - intros ->. reflexivity.
  - intros H. rewrite H, Z.eqb_refl. simpl. split; reflexivity.
  - intros H. apply Z.eqb_neq in H. rewrite H. split; reflexivity.
Qed.

(** Three clicks on the six slides of the sample deck. *)
Lemma navigation_in_bounds_witness :
  0 <= Nav.slideIndex
         (Nav.run (slides Fixtures.sampleDeck) [Nav.NEXT; Nav.NEXT; Nav.PREV])
    <= Z.of_nat (length (slides Fixtures.sampleDeck)) - 1.
Proof.
  exact (proj1 (navigation_in_bounds (slides Fixtures.sampleDeck)
                  [Nav.NEXT; Nav.NEXT; Nav.PREV] ltac:(discriminate))).
Defined.

(** ** The sanitization of the narration text *)

Module CleanTextFacts.
Import GeminiService.

Lemma replaceAll_app c r s t :
  replaceAll c r (s ++ t) = replaceAll c r s ++ replaceAll c r t.
Proof. unfold replaceAll. apply flat_map_app. Qed.

Lemma stripMarkup_app s t :
  stripMarkup (s ++ t) = stripMarkup s ++ stripMarkup t.
Proof. unfold stripMarkup. apply List.filter_app. Qed.

(** The sanitization works on each code unit on its own. *)
Lemma cleanText_app s t : cleanText (s ++ t) = cleanText s ++ cleanText t.
Proof.
  unfold cleanText. now rewrite !replaceAll_app, stripMarkup_app.
Qed.

Lemma cleanText_ordinary x : x ∉ special -> cleanText [x] = [x].
Proof.
  intros Hx.
  assert (Forall (fun c => N.eqb x c = false) special) as Hall.
  { apply Forall_forall. intros c Hc. apply N.eqb_neq. intros ->.
    apply Hx. now apply list_elem_of_In. }
  unfold special, markup in Hall. simpl in Hall.
  repeat match goal with
         | H : Forall _ (_ :: _) |- _ => inversion_clear H
         end.
  unfold cleanText, replaceAll, stripMarkup, isMarkup, markup. simpl.
  repeat match goal with
         | H : N.eqb x _ = false |- _ => rewrite H; simpl; clear H
         end.
  reflexivity.
Qed.

(** What replaces a special code unit is made of ordinary ones, so that a
    second pass leaves it alone. *)
Lemma cleanText_special x :
  x ∈ special -> cleanText (cleanText [x]) = cleanText [x].
Proof.
  intros Hx. unfold special, markup in Hx. simpl in Hx.
  repeat (apply elem_of_cons in Hx as [-> | Hx]; [vm_compute; reflexivity|]).
  now apply elem_of_nil in Hx.
Qed.

Lemma cleanText_unit x : cleanText (cleanText [x]) = cleanText [x].
Proof.
  destruct (decide (x ∈ special)) as [Hx | Hx].
  - now apply cleanText_special.
  - now rewrite !cleanText_ordinary.
Qed.

End CleanTextFacts.

(** C5. The sanitization of the narration text (the five substitutions
    followed by the stripping of the markup characters) is idempotent. *)
Theorem cleanText_idempotent (text : jsstring) :
  GeminiService.cleanText (GeminiService.cleanText text)
  = GeminiService.cleanText text.
Proof.
  induction text as [|x text IH]; [reflexivity|].
  change (x :: text) with ([x] ++ text).
  rewrite !CleanTextFacts.cleanText_app, IH.
  now rewrite CleanTextFacts.cleanText_unit.
Qed.

(** ** The client *)

Module ClientFacts.
Import GeminiService.

(** The symbols are spelled out and the markup is dropped. *)
Example cleanText_sample :
  cleanText ([SIGMA] ++ js "x" ++ [NOT_EQUAL] ++ js "$y^2")
  = js "sum of xis not equal to y2".
Proof. reflexivity. Qed.

(** [generateDeckImage] catches every failure: it never rejects, and what it
    delivers is a data URL, hence not empty. *)
Lemma generateDeckImage_settles imageService imagePrompt size :
  exists o, generateDeckImage imageService imagePrompt size = Resolve o
            /\ forall url, o = Some url -> url <> [].
Proof.
  unfold generateDeckImage.
  destruct (imageService _ _ _) as [candidates|e].
  - destruct (firstInlineData candidates) as [data|].
    + eexists. split; [reflexivity|]. intros url [= <-]. discriminate.
    + eexists. split; [reflexivity|]. discriminate.
  - eexists. split; [reflexivity|]. discriminate.
Qed.

(** [generateSlideAudio] catches every failure too. *)
Lemma generateSlideAudio_settles speechService text accent :
  exists o, generateSlideAudio speechService text accent = Resolve o.
Proof.
  unfold generateSlideAudio. destruct (speechService _ _); eauto.
Qed.

End ClientFacts.

(** ** The orchestrator *)

Module AppFacts.
Import App.

(** *** Positions *)

Lemma imap_shift (k : nat) (l : list Slide) :
  map fst (imap (fun i s => ((k + i)%nat, s)) l) = seq k (length l).
Proof.
  revert k. induction l as [|s l IH]; intros k; [reflexivity|].
  rewrite imap_cons. simpl. rewrite Nat.add_0_r. f_equal.
  rewrite <- IH. f_equal. apply imap_ext. intros i x _. simpl.
  f_equal. lia.
Qed.

Lemma indexed_fst slides : map fst (indexed slides) = seq 0 (length slides).
Proof. exact (imap_shift 0 slides). Qed.

Lemma indexed_In slides i s :
  In (i, s) (indexed slides) <-> slides !! i = Some s.
Proof.
  unfold indexed. rewrite <- list_elem_of_In, elem_of_lookup_imap. split.
  - intros (j & y & Heq & Hl). now inversion Heq; subst.
  - intros Hl. now exists i, s.
Qed.

Lemma NoDup_fst_filter {A} (P : nat * A -> bool) (l : list (nat * A)) :
  List.NoDup (map fst l) -> List.NoDup (map fst (List.filter P l)).
Proof.
  induction l as [|x l IH]; simpl; intros Hnd; [constructor|].
  inversion_clear Hnd as [|? ? Hx Hl].
  destruct (P x); simpl; [|now apply IH].
  constructor; [|now apply IH].
  intros Hin. apply Hx. apply in_map_iff in Hin as (y & Hy & Hin).
  apply filter_In in Hin as [Hin _]. apply in_map_iff. now exists y.
Qed.

Lemma indexed_NoDup slides : List.NoDup (map fst (indexed slides)).
Proof. rewrite indexed_fst. apply List.seq_NoDup. Qed.

(** *** The fold into a sparse map *)

Lemma collect_from (results : list (nat * option jsstring))
      (m : gmap nat jsstring) (i : nat) (u : jsstring) :
  List.NoDup (map fst results) ->
  fold_left
    (fun m res =>
       if truthy_opt res.2 then <[res.1 := default [] res.2]> m else m)
    results m !! i = Some u
  <-> (In (i, Some u) results /\ u <> [])
      \/ ((forall o, In (i, o) results -> truthy_opt o = false)
          /\ m !! i = Some u).
Proof.
  revert m. induction results as [|[j o] rs IH]; intros m Hnd.
  - simpl. split.
    + intros H. right. split; [intros ? []|exact H].
    + intros [[[] _]|[_ H]]. exact H.
  - inversion_clear Hnd as [|? ? Hj Hrs]. cbn [fold_left].
    rewrite (IH _ Hrs). clear IH. cbn [fst snd].
    assert (Hnone : forall x, ~ In (j, x) rs).
    { intros x Hin. apply Hj. apply in_map_iff. now exists (j, x). }
    destruct (decide (i = j)) as [->|Hij].
    + destruct (truthy_opt o) eqn:Ho.
      * rewrite lookup_insert_eq. split.
        -- intros [[Hin _]|[_ Heq]]; [now apply Hnone in Hin|].
           left. destruct o as [s|]; [|discriminate]. simpl in *.
           injection Heq as <-. split; [now left|].
           intros ->; discriminate.
        -- intros [[[Heq|Hin] Hu]|[Hall _]].
           ++ right. injection Heq as ->.
              split; [intros x Hin; now apply Hnone in Hin|reflexivity].
           ++ now apply Hnone in Hin.
           ++ specialize (Hall o (or_introl eq_refl)). congruence.
      * split.
        -- intros [[Hin _]|[_ Hm]]; [now apply Hnone in Hin|].
           right. split; [|exact Hm].
           intros x [Heq|Hin]; [injection Heq as <-; exact Ho
                               | now apply Hnone in Hin].
        -- intros [[[Heq|Hin] Hu]|[Hall Hm]].
           ++ injection Heq as ->. simpl in Ho.
              destruct u; [congruence|discriminate].
           ++ now apply Hnone in Hin.
           ++ right. split; [intros x Hin; now apply Hnone in Hin|exact Hm].
    + assert ((if truthy_opt o then <[j:=default [] o]> m else m) !! i
              = m !! i) as ->.
      { destruct (truthy_opt o); [now apply lookup_insert_ne|reflexivity]. }
      assert (Hin : forall x, In (i, x) ((j, o) :: rs) <-> In (i, x) rs).
      { intros x; simpl; split; [intros [Heq|H]; [congruence|exact H]|auto]. }
      split; (intros [[H1 H2]|[H1 H2]];
              [left; split; [apply Hin; exact H1 | exact H2]
              |right; split; [intros x Hx; apply (H1 x), Hin, Hx | exact H2]]).
Qed.

Lemma collect_lookup (results : list (nat * option jsstring)) i u :
  List.NoDup (map fst results) ->
  collect results !! i = Some u <-> In (i, Some u) results /\ u <> [].
Proof.
  intros Hnd. unfold collect. rewrite (collect_from _ _ _ _ Hnd).
  rewrite lookup_empty. split; [intros [H|[_ H]]; [exact H|discriminate]|auto].
Qed.

(** *** Truthiness *)

Lemma truthy_true (s : jsstring) : truthy s = true <-> s <> [].
Proof. destruct s; simpl; split; congruence. Qed.

Lemma truthy_opt_true (o : option jsstring) :
  truthy_opt o = true <-> exists s, o = Some s /\ s <> [].
Proof.
  destruct o as [s|]; simpl.
  - rewrite truthy_true. split; [eauto|]. now intros (? & [= <-] & ?).
  - split; [discriminate|]. now intros (? & ? & _).
Qed.

Lemma SlideType_eqb_eq a b : SlideType_eqb a b = true <-> a = b.
Proof. destruct a, b; simpl; split; congruence. Qed.

Lemma slidesWithVisuals_In slides i s :
  In (i, s) (slidesWithVisuals slides)
  <-> slides !! i = Some s /\ type s = DEEP_DIVE
      /\ exists p, visualPrompt s = Some p /\ p <> [].
Proof.
  unfold slidesWithVisuals, needsVisual.
  rewrite filter_In, indexed_In, andb_true_iff, SlideType_eqb_eq,
    truthy_opt_true.
  simpl. tauto.
Qed.

Lemma slidesWithVisuals_NoDup slides :
  List.NoDup (map fst (slidesWithVisuals slides)).
Proof. apply NoDup_fst_filter, indexed_NoDup. Qed.

(** *** The guarded tasks *)

Lemma tasks_calls {R} (task : nat * Slide -> R * list Call) items c :
  In c (concat (map snd (map task items)))
  <-> exists item, In item items /\ In c (task item).2.
Proof.
  rewrite in_concat. split.
  - intros (l & Hl & Hc). apply in_map_iff in Hl as (r & <- & Hr).
    apply in_map_iff in Hr as (item & <- & Hitem). eauto.
  - intros (item & Hitem & Hc). exists (task item).2. split; [|exact Hc].
    apply in_map_iff. exists (task item). split; [reflexivity|].
    now apply in_map.
Qed.

Lemma tasks_fst {R} (task : nat * Slide -> (nat * R) * list Call) items :
  (forall item, (task item).1.1 = item.1) ->
  map fst (map fst (map task items)) = map fst items.
Proof.
  intros Hfst. rewrite !map_map. apply map_ext. exact Hfst.
Qed.

Section Tasks.

Variable deckImage :
  nat -> jsstring -> ImageSize -> settled (option jsstring).
Variable slideAudio :
  nat -> jsstring -> VoiceAccent -> settled (option jsstring).

Lemma imageTask_call size item c :
  In c (imageTask deckImage size item).2
  <-> exists p, visualPrompt item.2 = Some p /\ p <> []
                /\ c = GenerateDeckImage item.1 p size.
Proof.
  unfold imageTask. destruct (truthy_opt (visualPrompt item.2)) eqn:Hp.
  - apply truthy_opt_true in Hp as (p & Hp & Hne). rewrite Hp. simpl.
    split.
    + intros [<-|[]]. eauto.
    + intros (p' & [= <-] & _ & ->). now left.
  - simpl. split; [tauto|]. intros (p & Hp' & Hne & _).
    assert (truthy_opt (visualPrompt item.2) = true) by
      (apply truthy_opt_true; eauto).
    congruence.
Qed.

Lemma audioTask_call accent item c :
  In c (audioTask slideAudio accent item).2
  <-> exists t, audioScript item.2 = Some t /\ t <> []
                /\ c = GenerateSlideAudio item.1 t accent.
Proof.
  unfold audioTask. destruct (truthy_opt (audioScript item.2)) eqn:Hp.
  - apply truthy_opt_true in Hp as (p & Hp & Hne). rewrite Hp. simpl.
    split.
    + intros [<-|[]]. eauto.
    + intros (p' & [= <-] & _ & ->). now left.
  - simpl. split; [tauto|]. intros (p & Hp' & Hne & _).
    assert (truthy_opt (audioScript item.2) = true) by
      (apply truthy_opt_true; eauto).
    congruence.
Qed.

Lemma imageTask_index size item :
  (imageTask deckImage size item).1.1 = item.1.
Proof.
  unfold imageTask. destruct (truthy_opt _); [|reflexivity].
  simpl. now destruct (deckImage _ _ _).
Qed.

Lemma audioTask_index accent item :
  (audioTask slideAudio accent item).1.1 = item.1.
Proof.
  unfold audioTask. destruct (truthy_opt _); [|reflexivity].
  simpl. now destruct (slideAudio _ _ _).
Qed.

(** A task delivers an asset exactly when its call resolves with one. *)
Lemma imageTask_delivers size item i url :
  (imageTask deckImage size item).1 = (i, Some url)
  <-> item.1 = i
      /\ exists p, visualPrompt item.2 = Some p /\ p <> []
                   /\ deckImage i p size = Resolve (Some url).
Proof.
  unfold imageTask. destruct (truthy_opt (visualPrompt item.2)) eqn:Hp.
  - apply truthy_opt_true in Hp as (p & Hp & Hne). rewrite Hp. simpl.
    split.
    + destruct (deckImage item.1 p size) as [o|e] eqn:Hcall;
        [intros [= <- Ho]; subst o; eauto | intros [=]].
    + intros (<- & p' & [= <-] & _ & ->). reflexivity.
  - simpl. split; [discriminate|]. intros (_ & p & Hp' & Hne & _).
    assert (truthy_opt (visualPrompt item.2) = true) by
      (apply truthy_opt_true; eauto).
    congruence.
Qed.

Lemma audioTask_delivers accent item i data :
  (audioTask slideAudio accent item).1 = (i, Some data)
  <-> item.1 = i
      /\ exists t, audioScript item.2 = Some t /\ t <> []
                   /\ slideAudio i t accent = Resolve (Some data).
Proof.
  unfold audioTask. destruct (truthy_opt (audioScript item.2)) eqn:Hp.
  - apply truthy_opt_true in Hp as (p & Hp & Hne). rewrite Hp. simpl.
    split.
    + destruct (slideAudio item.1 p accent) as [o|e] eqn:Hcall;
        [intros [= <- Ho]; subst o; eauto | intros [=]].
    + intros (<- & p' & [= <-] & _ & ->). reflexivity.
  - simpl. split; [discriminate|]. intros (_ & p & Hp' & Hne & _).
    assert (truthy_opt (audioScript item.2) = true) by
      (apply truthy_opt_true; eauto).
    congruence.
Qed.

(** *** The two sparse maps of the bundle *)

Lemma images_lookup size slides i url :
  collect (map fst (map (imageTask deckImage size)
                      (slidesWithVisuals slides))) !! i = Some url
  <-> exists s p,
        slides !! i = Some s /\ type s = DEEP_DIVE
        /\ visualPrompt s = Some p /\ p <> []
        /\ deckImage i p size = Resolve (Some url) /\ url <> [].
Proof.
  rewrite collect_lookup.
  2:{ rewrite tasks_fst by apply imageTask_index.
      apply slidesWithVisuals_NoDup. }
  rewrite map_map, in_map_iff. split.
  - intros [([j s] & Hres & Hin) Hne].
    apply imageTask_delivers in Hres as (Hj & p & Hp & Hpne & Hcall).
    simpl in Hj, Hp. subst j.
    apply slidesWithVisuals_In in Hin as (Hs & Hty & _).
    exists s, p. repeat split; assumption.
  - intros (s & p & Hs & Hty & Hp & Hpne & Hcall & Hne).
    split; [|exact Hne]. exists (i, s). split.
    + apply imageTask_delivers. simpl. eauto.
    + apply slidesWithVisuals_In. eauto.
Qed.

Lemma audio_lookup accent slides i data :
  collect (map fst (map (audioTask slideAudio accent)
                      (indexed slides))) !! i = Some data
  <-> exists s t,
        slides !! i = Some s /\ audioScript s = Some t /\ t <> []
        /\ slideAudio i t accent = Resolve (Some data) /\ data <> [].
Proof.
  rewrite collect_lookup.
  2:{ rewrite tasks_fst by apply audioTask_index. apply indexed_NoDup. }
  rewrite map_map, in_map_iff. split.
  - intros [([j s] & Hres & Hin) Hne].
    apply audioTask_delivers in Hres as (Hj & p & Hp & Hpne & Hcall).
    simpl in Hj, Hp. subst j.
    apply indexed_In in Hin.
    exists s, p. repeat split; assumption.
  - intros (s & p & Hs & Hp & Hpne & Hcall & Hne).
    split; [|exact Hne]. exists (i, s). split.
    + apply audioTask_delivers. simpl. eauto.
    + now apply indexed_In.
Qed.

End Tasks.

(** *** The calls of a run *)

Lemma imageRequests_In calls i :
  In i (imageRequests calls)
  <-> exists p sz, In (GenerateDeckImage i p sz) calls.
Proof.
  unfold imageRequests.
  rewrite <- list_elem_of_In, list_elem_of_omap. split.
  - intros (c & Hc & Hi). apply list_elem_of_In in Hc.
    destruct c; try discriminate. injection Hi as ->. eauto.
  - intros (p & sz & Hc). exists (GenerateDeckImage i p sz).
    split; [now apply list_elem_of_In | reflexivity].
Qed.

Lemma audioRequests_In calls i :
  In i (audioRequests calls)
  <-> exists t a, In (GenerateSlideAudio i t a) calls.
Proof.
  unfold audioRequests.
  rewrite <- list_elem_of_In, list_elem_of_omap. split.
  - intros (c & Hc & Hi). apply list_elem_of_In in Hc.
    destruct c; try discriminate. injection Hi as ->. eauto.
  - intros (p & sz & Hc). exists (GenerateSlideAudio i p sz).
    split; [now apply list_elem_of_In | reflexivity].
Qed.

Section Run.

Variable aistudio : option bool.
Variable deckText : jsstring -> settled DeckContent.
Variable deckImage :
  nat -> jsstring -> ImageSize -> settled (option jsstring).
Variable slideAudio :
  nat -> jsstring -> VoiceAccent -> settled (option jsstring).

#[local] Abbreviation run :=
  (generateContent aistudio deckText deckImage slideAudio).

Lemma handleApiKeyCheck_calls c :
  In c (handleApiKeyCheck aistudio) -> c = HasSelectedApiKey \/ c = OpenSelectKey.
Proof.
  unfold handleApiKeyCheck.
  destruct aistudio as [[|]|]; simpl; intuition congruence.
Qed.

Lemma run_image_call topic size m d i p sz :
  deckText topic = Resolve d ->
  In (GenerateDeckImage i p sz) (run topic size m).2
  <-> sz = size
      /\ exists s, slides d !! i = Some s /\ type s = DEEP_DIVE
                   /\ visualPrompt s = Some p /\ p <> [].
Proof.
  intros Hd. unfold generateContent. rewrite Hd. cbn [snd].
  rewrite !in_app_iff, !tasks_calls. split.
  - intros [H|[H|[H|H]]].
    + apply handleApiKeyCheck_calls in H as [H|H]; discriminate.
    + destruct H as [H|[]]; discriminate.
    + destruct H as ([j s] & Hin & Hc).
      apply imageTask_call in Hc as (p' & Hp & Hne & [= -> -> ->]).
      apply slidesWithVisuals_In in Hin as (Hs & Hty & _).
      split; [reflexivity|]. exists s. simpl in Hp. auto.
    + destruct H as (item & _ & Hc).
      apply audioTask_call in Hc as (? & _ & _ & ?). discriminate.
  - intros (-> & s & Hs & Hty & Hp & Hne).
    right; right; left. exists (i, s). split.
    + apply slidesWithVisuals_In. eauto.
    + apply imageTask_call. simpl. eauto.
Qed.

Lemma run_audio_call topic size m d i t a :
  deckText topic = Resolve d ->
  In (GenerateSlideAudio i t a) (run topic size m).2
  <-> a = voiceAccent m
      /\ exists s, slides d !! i = Some s
                   /\ audioScript s = Some t /\ t <> [].
Proof.
  intros Hd. unfold generateContent. rewrite Hd. cbn [snd].
  rewrite !in_app_iff, !tasks_calls. split.
  - intros [H|[H|[H|H]]].
    + apply handleApiKeyCheck_calls in H as [H|H]; discriminate.
    + destruct H as [H|[]]; discriminate.
    + destruct H as (item & _ & Hc).
      apply imageTask_call in Hc as (? & _ & _ & ?). discriminate.
    + destruct H as ([j s] & Hin & Hc).
      apply audioTask_call in Hc as (p' & Hp & Hne & [= -> -> ->]).
      apply indexed_In in Hin.
      split; [reflexivity|]. exists s. simpl in Hp. auto.
  - intros (-> & s & Hs & Hp & Hne).
    right; right; right. exists (i, s). split.
    + now apply indexed_In.
    + apply audioTask_call. simpl. eauto.
Qed.

(** No position is asked twice. *)
Lemma imageTasks_requests size items :
  imageRequests
    (concat (map snd (map (imageTask deckImage size) items)))
  = map fst (List.filter (fun it => truthy_opt (visualPrompt it.2)) items).
Proof.
  induction items as [|item items IH]; [reflexivity|].
  cbn [map concat List.filter]. unfold imageRequests in *.
  rewrite omap_app, IH. unfold imageTask.
  now destruct (truthy_opt (visualPrompt item.2)).
Qed.

Lemma audioTasks_requests accent items :
  audioRequests
    (concat (map snd (map (audioTask slideAudio accent) items)))
  = map fst (List.filter (fun it => truthy_opt (audioScript it.2)) items).
Proof.
  induction items as [|item items IH]; [reflexivity|].
  cbn [map concat List.filter]. unfold audioRequests in *.
  rewrite omap_app, IH. unfold audioTask.
  now destruct (truthy_opt (audioScript item.2)).
Qed.

Lemma imageTasks_no_audio size items :
  audioRequests
    (concat (map snd (map (imageTask deckImage size) items))) = [].
Proof.
  induction items as [|item items IH]; [reflexivity|].
  cbn [map concat]. unfold audioRequests in *.
  rewrite omap_app, IH. unfold imageTask.
  now destruct (truthy_opt (visualPrompt item.2)).
Qed.

Lemma audioTasks_no_image accent items :
  imageRequests
    (concat (map snd (map (audioTask slideAudio accent) items))) = [].
Proof.
  induction items as [|item items IH]; [reflexivity|].
  cbn [map concat]. unfold imageRequests in *.
  rewrite omap_app, IH. unfold audioTask.
  now destruct (truthy_opt (audioScript item.2)).
Qed.

Lemma run_imageRequests_NoDup topic size m d :
  deckText topic = Resolve d ->
  List.NoDup (imageRequests (run topic size m).2).
Proof.
  intros Hd. unfold generateContent. rewrite Hd. cbn [snd].
  unfold imageRequests. rewrite !omap_app.
  fold (imageRequests
          (concat (map snd (map (imageTask deckImage size)
                              (slidesWithVisuals (slides d)))))).
  fold (imageRequests
          (concat (map snd (map (audioTask slideAudio (voiceAccent m))
                              (indexed (slides d)))))).
  rewrite imageTasks_requests, audioTasks_no_image, app_nil_r.
  assert (omap (fun c => match c with
                         | GenerateDeckImage index _ _ => Some index
                         | _ => None
                         end) (handleApiKeyCheck aistudio) = []) as ->.
  { unfold handleApiKeyCheck. now destruct aistudio as [[|]|]. }
  simpl. apply NoDup_fst_filter, slidesWithVisuals_NoDup.
Qed.

Lemma run_audioRequests_NoDup topic size m d :
  deckText topic = Resolve d ->
  List.NoDup (audioRequests (run topic size m).2).
Proof.
  intros Hd. unfold generateContent. rewrite Hd. cbn [snd].
  unfold audioRequests. rewrite !omap_app.
  fold (audioRequests
          (concat (map snd (map (imageTask deckImage size)
                              (slidesWithVisuals (slides d)))))).
  fold (audioRequests
          (concat (map snd (map (audioTask slideAudio (voiceAccent m))
                              (indexed (slides d)))))).
  rewrite audioTasks_requests, imageTasks_no_audio.
  assert (omap (fun c => match c with
                         | GenerateSlideAudio index _ _ => Some index
                         | _ => None
                         end) (handleApiKeyCheck aistudio) = []) as ->.
  { unfold handleApiKeyCheck. now destruct aistudio as [[|]|]. }
  simpl. apply NoDup_fst_filter, indexed_NoDup.
Qed.

End Run.

End AppFacts.

(** C4. For every deck returned by the text call, an image request is issued
    for position [i] exactly when slide [i] is a DeepDive slide with a
    non-empty [visualPrompt]; the request carries that prompt and the chosen
    size, and no position is asked twice. *)
Theorem image_requests_exactly_eligible
  (aistudio : option bool) (deckText : jsstring -> settled DeckContent)
  (deckImage : nat -> jsstring -> ImageSize -> settled (option jsstring))
  (slideAudio : nat -> jsstring -> VoiceAccent -> settled (option jsstring))
  (topic : jsstring) (size : ImageSize) (m : App.Model) (d : DeckContent) :
  deckText topic = Resolve d ->
  let calls :=
    (App.generateContent aistudio deckText deckImage slideAudio topic size m).2 in
  (forall i, In i (App.imageRequests calls)
             <-> exists s p, slides d !! i = Some s /\ type s = DEEP_DIVE
                             /\ visualPrompt s = Some p /\ p <> [])
  /\ (forall i p sz, In (App.GenerateDeckImage i p sz) calls
                     <-> sz = size
                         /\ exists s, slides d !! i = Some s
                                      /\ type s = DEEP_DIVE
                                      /\ visualPrompt s = Some p /\ p <> [])
  /\ List.NoDup (App.imageRequests calls).
Proof.
  intros Hd calls. split; [|split].
  - intros i. rewrite AppFacts.imageRequests_In. split.
    + intros (p & sz & Hc).
      apply (AppFacts.run_image_call _ _ _ _ _ _ _ _ _ _ _ Hd) in Hc
        as (_ & s & H).
      exists s, p. exact H.
    + intros (s & p & H). exists p, size.
      apply (AppFacts.run_image_call _ _ _ _ _ _ _ _ _ _ _ Hd). eauto.
  - intros i p sz. exact (AppFacts.run_image_call _ _ _ _ _ _ _ _ _ _ _ Hd).
  - exact (AppFacts.run_imageRequests_NoDup _ _ _ _ _ _ _ _ Hd).
Qed.

(** On the sample deck positions 1 and 4 are asked: position 2 has no
    prompt, position 3 is not a DeepDive slide, position 5 has an empty
    prompt. *)
Lemma image_requests_exactly_eligible_witness :
  In 1%nat
    (App.imageRequests
       (App.generateContent (Some true) Fixtures.deckText
          Fixtures.deckImage Fixtures.slideAudio
          (js "supply and demand") Size1K App.initial).2)
  /\ ~ In 3%nat
        (App.imageRequests
           (App.generateContent (Some true) Fixtures.deckText
              Fixtures.deckImage Fixtures.slideAudio
              (js "supply and demand") Size1K App.initial).2).
Proof.
  pose proof (proj1 (image_requests_exactly_eligible (Some true)
                       Fixtures.deckText Fixtures.deckImage
                       Fixtures.slideAudio (js "supply and demand") Size1K
                       App.initial Fixtures.sampleDeck eq_refl)) as H.
  split.
  - apply H. do 2 eexists. repeat split; try reflexivity. discriminate.
  - intros Hin. apply H in Hin as (s & p & Hs & Hty & _).
    injection Hs as <-. discriminate.
Defined.

(** C8. For every deck returned by the text call, an audio request is issued
    for position [i] exactly when slide [i] has a non-empty [audioScript],
    whatever its kind; a slide with an empty or missing script gets no
    request and no entry in the audio map of the bundle. *)
Theorem audio_requests_exactly_scripted
  (aistudio : option bool) (deckText : jsstring -> settled DeckContent)
  (deckImage : nat -> jsstring -> ImageSize -> settled (option jsstring))
  (slideAudio : nat -> jsstring -> VoiceAccent -> settled (option jsstring))
  (topic : jsstring) (size : ImageSize) (m : App.Model) (d : DeckContent) :
  deckText topic = Resolve d ->
  let r := App.generateContent aistudio deckText deckImage slideAudio
             topic size m in
  (forall i, In i (App.audioRequests r.2)
             <-> exists s t, slides d !! i = Some s
                             /\ audioScript s = Some t /\ t <> [])
  /\ (forall i t a, In (App.GenerateSlideAudio i t a) r.2
                    <-> a = App.voiceAccent m
                        /\ exists s, slides d !! i = Some s
                                     /\ audioScript s = Some t /\ t <> [])
  /\ List.NoDup (App.audioRequests r.2)
  /\ (forall i s, slides d !! i = Some s ->
                  audioScript s = None \/ audioScript s = Some [] ->
                  ~ In i (App.audioRequests r.2)
                  /\ exists bundle, App.generatedData r.1 = Some bundle
                                    /\ audio bundle !! i = None).
Proof.
  intros Hd r.
  assert (Hpos : forall i, In i (App.audioRequests r.2)
             <-> exists s t, slides d !! i = Some s
                             /\ audioScript s = Some t /\ t <> []).
  { intros i. rewrite AppFacts.audioRequests_In. split.
    - intros (p & sz & Hc).
      apply (AppFacts.run_audio_call _ _ _ _ _ _ _ _ _ _ _ Hd) in Hc
        as (_ & s & H).
      exists s, p. exact H.
    - intros (s & p & H). exists p, (App.voiceAccent m).
      apply (AppFacts.run_audio_call _ _ _ _ _ _ _ _ _ _ _ Hd). eauto. }
  split; [exact Hpos|]. split; [|split].
  - intros i t a. exact (AppFacts.run_audio_call _ _ _ _ _ _ _ _ _ _ _ Hd).
  - exact (AppFacts.run_audioRequests_NoDup _ _ _ _ _ _ _ _ Hd).
  - intros i s Hs Hscript. split.
    + rewrite Hpos. intros (s' & t & Hs' & Ht & Hne).
      rewrite Hs in Hs'. injection Hs' as <-.
      destruct Hscript as [H|H]; rewrite H in Ht; congruence.
    + subst r. unfold App.generateContent. rewrite Hd. cbn [fst].
      eexists. split; [reflexivity|]. cbn [audio App.generatedData].
      apply eq_None_not_Some. intros [u Hu].
      apply AppFacts.audio_lookup in Hu as (s' & t & Hs' & Ht & Hne & _).
      rewrite Hs in Hs'. injection Hs' as <-.
      destruct Hscript as [H|H]; rewrite H in Ht; congruence.
Qed.

(** On the sample deck the script of position 3 is missing and that of
    position 4 is empty. *)
Lemma audio_requests_exactly_scripted_witness :
  In 0%nat
    (App.audioRequests
       (App.generateContent (Some true) Fixtures.deckText
          Fixtures.deckImage Fixtures.slideAudio
          (js "supply and demand") Size1K App.initial).2)
  /\ ~ In 3%nat
        (App.audioRequests
           (App.generateContent (Some true) Fixtures.deckText
              Fixtures.deckImage Fixtures.slideAudio
              (js "supply and demand") Size1K App.initial).2)
  /\ ~ In 4%nat
        (App.audioRequests
           (App.generateContent (Some true) Fixtures.deckText
              Fixtures.deckImage Fixtures.slideAudio
              (js "supply and demand") Size1K App.initial).2).
Proof.
  pose proof (proj1 (audio_requests_exactly_scripted (Some true)
                       Fixtures.deckText Fixtures.deckImage
                       Fixtures.slideAudio (js "supply and demand") Size1K
                       App.initial Fixtures.sampleDeck eq_refl)) as H.
  split; [|split].
  - apply H. do 2 eexists. repeat split; try reflexivity. discriminate.
  - intros Hin. apply H in Hin as (s & t & Hs & Ht & _).
    injection Hs as <-. discriminate.
  - intros Hin. apply H in Hin as (s & t & Hs & Ht & Hne).
    injection Hs as <-. injection Ht as <-. now apply Hne.
Defined.

(** ** Fatal failures of the deck call *)

Module FailureFacts.

Lemma startsWith_spec (s p : jsstring) :
  startsWith s p = true <-> exists after, s = p ++ after.
Proof.
  revert s. induction p as [|a p IH]; intros s.
  - destruct s; simpl; split; eauto.
  - destruct s as [|b s]; simpl.
    + split; [discriminate|]. now intros (? & ?).
    + rewrite andb_true_iff, N.eqb_eq, IH. split.
      * intros (-> & after & ->). eauto.
      * intros (after & [= -> ->]). eauto.
Qed.

Lemma includes_spec (s p : jsstring) :
  includes s p = true <-> exists before after, s = before ++ p ++ after.
Proof.
  induction s as [|x s IH].
  - cbn [includes]. rewrite orb_false_r, startsWith_spec. split.
    + intros (after & ->). now exists [], after.
    + intros (before & after & H). destruct before; [eauto|discriminate].
  - cbn [includes]. rewrite orb_true_iff, startsWith_spec, IH. split.
    + intros [(after & ->) | (before & after & ->)].
      * now exists [], after.
      * now exists (x :: before), after.
    + intros ([|y before] & after & H).
      * left. eauto.
      * right. injection H as -> ->. eauto.
Qed.

Lemma carries_includes (err : JsError) (phrase : jsstring) :
  carries err phrase
  <-> match message err with
      | Some msg => includes msg phrase
      | None => false
      end = true.
Proof.
  unfold carries. destruct (message err) as [msg|].
  - rewrite includes_spec. split.
    + intros (? & before & after & [= <-] & ->). eauto.
    + intros (before & after & ->). eauto 6.
  - split; [now intros (? & ? & ? & ? & _) | discriminate].
Qed.

End FailureFacts.

(** C6, counterexample to the statement: when the request itself is refused, the
    service has returned neither an empty content nor malformed JSON, and
    [generateDeckText] fails all the same. *)
Lemma deck_text_fails_on_refused_request :
  GeminiService.generateDeckText Fixtures.refusingService Json.parseDeck
    (js "supply and demand") = Reject Fixtures.entityNotFound
  /\ ~ (exists text,
          Fixtures.refusingService (js "supply and demand") = Resolve text
          /\ (truthy_opt text = false
              \/ exists e, Json.parseDeck (default [] text) = Reject e)).
Proof.
  split; [reflexivity|]. intros (text & H & _). discriminate.
Qed.

(** C6, amended. [generateDeckText] fails exactly when the request is
    refused, when the response has no content, or when its content is
    malformed JSON, with the error of that cause; the failure reaches the
    orchestrator, which ends in the error state, leaves the stored bundle
    as it was, and issues no image and no audio request. *)
Theorem deck_text_failure_aborts_run
  (aistudio : option bool)
  (deckService : jsstring -> settled (option jsstring))
  (JSON_parse : jsstring -> settled DeckContent)
  (deckImage : nat -> jsstring -> ImageSize -> settled (option jsstring))
  (slideAudio : nat -> jsstring -> VoiceAccent -> settled (option jsstring))
  (topic : jsstring) (size : ImageSize) (m : App.Model) (e : JsError) :
  let deckText := GeminiService.generateDeckText deckService JSON_parse in
  let r := App.generateContent aistudio deckText deckImage slideAudio
             topic size m in
  (deckText topic = Reject e
   <-> deckService topic = Reject e
       \/ (exists text, deckService topic = Resolve text
                        /\ truthy_opt text = false
                        /\ e = mkError (Some (js "No content generated")))
       \/ (exists text, deckService topic = Resolve (Some text)
                        /\ text <> [] /\ JSON_parse text = Reject e))
  /\ (deckText topic = Reject e ->
      App.state r.1 = ERROR
      /\ is_Some (App.error r.1)
      /\ App.generatedData r.1 = App.generatedData m
      /\ App.imageRequests r.2 = []
      /\ App.audioRequests r.2 = []).
Proof.
  intros deckText r. split.
  - subst deckText. unfold GeminiService.generateDeckText.
    destruct (deckService topic) as [text|e'] eqn:Hs.
    + destruct (truthy_opt text) eqn:Ht.
      * apply AppFacts.truthy_opt_true in Ht as (t & -> & Hne). simpl. split.
        -- intros H. right; right. eauto.
        -- intros [H|[(text & [= <-] & Hf & _)|(text & [= <-] & _ & H)]];
             [discriminate | |exact H].
           simpl in Hf. apply AppFacts.truthy_true in Hne. congruence.
      * split.
        -- intros [= <-]. right; left. eauto.
        -- intros [H|[(text' & [= <-] & _ & ->)|(t & [= ->] & Hne & _)]];
             [discriminate|reflexivity|].
           simpl in Ht. apply AppFacts.truthy_true in Hne. congruence.
    + split.
      * intros [= ->]. now left.
      * intros [[= ->]|[(? & ? & _)|(? & ? & _)]];
          [reflexivity|discriminate|discriminate].
  - intros He. subst r. unfold App.generateContent. rewrite He.
    unfold App.handleFailure.
    destruct (match message e with Some _ => _ | None => _ end);
      cbn [fst snd App.state App.error App.generatedData];
      (split; [reflexivity|]); (split; [eauto|]); (split; [reflexivity|]);
      unfold App.imageRequests, App.audioRequests, App.handleApiKeyCheck;
      destruct aistudio as [[|]|]; split; reflexivity.
Qed.

(** The refused request of the sample data, in a host without key dialog. *)
Lemma deck_text_failure_aborts_run_witness :
  App.state
    (App.generateContent None
       (GeminiService.generateDeckText Fixtures.refusingService Json.parseDeck)
       Fixtures.deckImage Fixtures.slideAudio
       (js "supply and demand") Size1K App.initial).1 = ERROR.
Proof.
  exact (proj1 (proj2 (deck_text_failure_aborts_run None
                         Fixtures.refusingService Json.parseDeck
                         Fixtures.deckImage Fixtures.slideAudio
                         (js "supply and demand") Size1K App.initial
                         Fixtures.entityNotFound) eq_refl)).
Defined.

(** C7, counterexample to the statement: in a host without [window.aistudio] the
    deck call fails with the backend message, the remediation message is
    shown, and no credential selection is triggered: the only call of the
    run is the deck request. *)
Lemma remediation_without_key_selection :
  carries Fixtures.entityNotFound (js "Requested entity was not found")
  /\ App.state
       (App.generateContent None Fixtures.failingDeckText
          Fixtures.deckImage Fixtures.slideAudio
          (js "supply and demand") Size1K App.initial).1 = ERROR
  /\ App.error
       (App.generateContent None Fixtures.failingDeckText
          Fixtures.deckImage Fixtures.slideAudio
          (js "supply and demand") Size1K App.initial).1
     = Some App.apiConfigurationError
  /\ (App.generateContent None Fixtures.failingDeckText
        Fixtures.deckImage Fixtures.slideAudio
        (js "supply and demand") Size1K App.initial).2
     = [App.GenerateDeckText (js "supply and demand")]
  /\ ~ In App.OpenSelectKey
        (App.generateContent None Fixtures.failingDeckText
           Fixtures.deckImage Fixtures.slideAudio
           (js "supply and demand") Size1K App.initial).2.
Proof.
  split; [|split; [|split; [|split]]].
  - apply FailureFacts.carries_includes. reflexivity.
  - reflexivity.
  - reflexivity.
  - reflexivity.
  - intros [H|[]]. discriminate.
Qed.

(** C7, amended. When the deck call fails with a message that contains
    "Requested entity was not found", the run ends in the error state with
    the remediation message, and the key selection is triggered again if
    the host provides [window.aistudio]; after any other failure of the
    deck call the run ends in the error state with the generic message and
    triggers nothing. *)
Theorem fatal_failure_error_state
  (aistudio : option bool) (deckText : jsstring -> settled DeckContent)
  (deckImage : nat -> jsstring -> ImageSize -> settled (option jsstring))
  (slideAudio : nat -> jsstring -> VoiceAccent -> settled (option jsstring))
  (topic : jsstring) (size : ImageSize) (m : App.Model) (err : JsError) :
  deckText topic = Reject err ->
  let r := App.generateContent aistudio deckText deckImage slideAudio
             topic size m in
  App.state r.1 = ERROR
  /\ (carries err (js "Requested entity was not found") ->
      App.error r.1 = Some App.apiConfigurationError
      /\ r.2 = App.handleApiKeyCheck aistudio
               ++ [App.GenerateDeckText topic]
               ++ match aistudio with
                  | Some _ => [App.OpenSelectKey]
                  | None => []
                  end)
  /\ (~ carries err (js "Requested entity was not found") ->
      App.error r.1 = Some App.genericError
      /\ r.2 = App.handleApiKeyCheck aistudio ++ [App.GenerateDeckText topic]).
Proof.
  intros Hd r. subst r. unfold App.generateContent. rewrite Hd.
  unfold App.handleFailure.
  rewrite (FailureFacts.carries_includes err).
  destruct (match message err with Some _ => _ | None => _ end);
    cbn [fst snd App.state App.error].
  - split; [reflexivity|]. split; [|congruence].
    intros _. split; [reflexivity|]. now destruct aistudio.
  - split; [reflexivity|]. split; [discriminate|].
    intros _. split; reflexivity.
Qed.

(** The refused deck call in a host with the key dialog and a selected
    key: the dialog is opened again after the failure. *)
Lemma fatal_failure_error_state_witness :
  App.error
    (App.generateContent (Some true) Fixtures.failingDeckText
       Fixtures.deckImage Fixtures.slideAudio
       (js "supply and demand") Size1K App.initial).1
  = Some App.apiConfigurationError
  /\ (App.generateContent (Some true) Fixtures.failingDeckText
        Fixtures.deckImage Fixtures.slideAudio
        (js "supply and demand") Size1K App.initial).2
     = [App.HasSelectedApiKey;
        App.GenerateDeckText (js "supply and demand");
        App.OpenSelectKey].
Proof.
  refine (proj1 (proj2 (fatal_failure_error_state (Some true)
                          Fixtures.failingDeckText Fixtures.deckImage
                          Fixtures.slideAudio (js "supply and demand")
                          Size1K App.initial Fixtures.entityNotFound
                          eq_refl)) _).
  apply FailureFacts.carries_includes. reflexivity.
Defined.

(** ** Successful deck generation *)




(** ** Failure isolation *)

(** C1. Whatever the image and audio calls do, a run whose deck call
    succeeded completes with the bundle, and no failure of a call leaves its
    guard. The image map (audio map) holds at a position exactly the asset
    that the call issued for that position delivered, so the call of one
    position has no effect on the entry of another; a position whose call
    throws or returns nothing is missing from the map. *)
Theorem failure_isolation
  (aistudio : option bool) (deckText : jsstring -> settled DeckContent)
  (deckImage : nat -> jsstring -> ImageSize -> settled (option jsstring))
  (slideAudio : nat -> jsstring -> VoiceAccent -> settled (option jsstring))
  (topic : jsstring) (size : ImageSize) (m : App.Model) (d : DeckContent) :
  deckText topic = Resolve d ->
  let r := App.generateContent aistudio deckText deckImage slideAudio
             topic size m in
  exists bundle,
    App.state r.1 = DECK /\ App.error r.1 = None
    /\ App.generatedData r.1 = Some bundle /\ deck bundle = d
    /\ (forall i url,
          images bundle !! i = Some url
          <-> exists s p,
                slides d !! i = Some s /\ type s = DEEP_DIVE
                /\ visualPrompt s = Some p /\ p <> []
                /\ deckImage i p size = Resolve (Some url) /\ url <> [])
    /\ (forall i data,
          audio bundle !! i = Some data
          <-> exists s t,
                slides d !! i = Some s /\ audioScript s = Some t /\ t <> []
                /\ slideAudio i t (App.voiceAccent m) = Resolve (Some data)
                /\ data <> [])
    /\ (forall i s p,
          slides d !! i = Some s -> visualPrompt s = Some p ->
          absent (deckImage i p size) -> images bundle !! i = None)
    /\ (forall i s t,
          slides d !! i = Some s -> audioScript s = Some t ->
          absent (slideAudio i t (App.voiceAccent m)) ->
          audio bundle !! i = None).
Proof.
  intros Hd r. subst r. unfold App.generateContent. rewrite Hd.
  cbn [fst App.state App.error App.generatedData].
  eexists. split; [reflexivity|]. split; [reflexivity|].
  split; [reflexivity|]. cbn [deck images audio]. split; [reflexivity|].
  split; [|split; [|split]].
  - intros i url. apply AppFacts.images_lookup.
  - intros i data. apply AppFacts.audio_lookup.
  - intros i s p Hs Hp Habs. apply eq_None_not_Some. intros [url Hu].
    apply AppFacts.images_lookup in Hu
      as (s' & p' & Hs' & _ & Hp' & _ & Hcall & _).
    rewrite Hs in Hs'. injection Hs' as <-.
    rewrite Hp in Hp'. injection Hp' as <-.
    rewrite Hcall in Habs. exact Habs.
  - intros i s t Hs Ht Habs. apply eq_None_not_Some. intros [data Hu].
    apply AppFacts.audio_lookup in Hu
      as (s' & t' & Hs' & Ht' & _ & Hcall & _).
    rewrite Hs in Hs'. injection Hs' as <-.
    rewrite Ht in Ht'. injection Ht' as <-.
    rewrite Hcall in Habs. exact Habs.
Qed.

(** The sample run: the image call of position 4 throws, the audio call of
    position 0 returns nothing and that of position 2 throws. The bundle
    has the image of position 1 and the narrations of positions 1 and 5. *)
Lemma failure_isolation_witness :
  exists bundle,
    App.generatedData
      (App.generateContent (Some true) Fixtures.deckText Fixtures.deckImage
         Fixtures.slideAudio (js "supply and demand") Size1K App.initial).1
    = Some bundle
    /\ images bundle !! 1%nat = Some (js "data:image/png;base64,AAAA")
    /\ images bundle !! 4%nat = None
    /\ audio bundle !! 0%nat = None
    /\ audio bundle !! 1%nat = Some (js "AAEC")
    /\ audio bundle !! 2%nat = None
    /\ audio bundle !! 5%nat = Some (js "AAEC").
Proof.
  destruct (failure_isolation (Some true) Fixtures.deckText Fixtures.deckImage
              Fixtures.slideAudio (js "supply and demand") Size1K App.initial
              Fixtures.sampleDeck eq_refl)
    as (bundle & _ & _ & Hdata & _ & Himg & Haud & Hnoimg & Hnoaud).
  exists bundle. split; [exact Hdata|].
  split; [|split; [|split; [|split; [|split]]]].
  - apply Himg. do 2 eexists.
    repeat split; try reflexivity; discriminate.
  - exact (Hnoimg 4%nat _ _ eq_refl eq_refl I).
  - exact (Hnoaud 0%nat _ _ eq_refl eq_refl I).
  - apply Haud. do 2 eexists.
    repeat split; try reflexivity; discriminate.
  - exact (Hnoaud 2%nat _ _ eq_refl eq_refl I).
  - apply Haud. do 2 eexists.
    repeat split; try reflexivity; discriminate.
Defined.

(** ** The audio decoder *)

Module Base64Facts.
Import Base64.
Local Open Scope N_scope.

Ltac divmod :=
  zify; Z.to_euclidean_division_equations; lia.

(** Induction on a list, three elements at a time. *)
Lemma triples_ind {A} (P : list A -> Prop) :
  P [] -> (forall a, P [a]) -> (forall a b, P [a; b]) ->
  (forall a b c l, P l -> P (a :: b :: c :: l)) ->
  forall l, P l.
Proof.
  intros H0 H1 H2 H3.
  refine (fix go l :=
            match l with
            | [] => H0
            | [a] => H1 a
            | [a; b] => H2 a b
            | a :: b :: c :: l' => H3 a b c l' (go l')
            end).
Qed.

Lemma sextet_alphabet n : n < 64 -> sextet (alphabet n) = Some n.
Proof.
  intros Hn. unfold alphabet, sextet.
  repeat match goal with
         | |- context [?a <? ?b] => destruct (N.ltb_spec a b)
         | |- context [?a <=? ?b] => destruct (N.leb_spec a b)
         | |- context [?a =? ?b] => destruct (N.eqb_spec a b)
         | |- context [andb _ _] => progress simpl
         end; try lia; f_equal; lia.
Qed.

Lemma sextet_not_whitespace c n :
  sextet c = Some n -> isAsciiWhitespace c = false /\ c <> pad.
Proof.
  intros Hc. split.
  - unfold isAsciiWhitespace.
    repeat match goal with
           | |- context [?a =? ?b] =>
               destruct (N.eqb_spec a b) as [->|]; [discriminate|]
           end.
    reflexivity.
  - intros ->. discriminate.
Qed.

Lemma sixes_bound bs :
  Forall (fun b => b < 256) bs -> Forall (fun n => n < 64) (sixes bs).
Proof.
  induction bs as [| a | a b | a b c l IH] using triples_ind; intros Hb;
    simpl.
  - constructor.
  - inversion_clear Hb. repeat constructor; divmod.
  - inversion_clear Hb as [|? ? Ha Hb']. inversion_clear Hb'.
    repeat constructor; divmod.
  - inversion_clear Hb as [|? ? Ha Hb']. inversion_clear Hb' as [|? ? Hb Hc'].
    inversion_clear Hc' as [|? ? Hc Hl].
    repeat (constructor; [divmod|]). now apply IH.
Qed.

Lemma bytesOf_sixes bs :
  Forall (fun b => b < 256) bs -> bytesOf (sixes bs) = bs.
Proof.
  induction bs as [| a | a b | a b c l IH] using triples_ind; intros Hb;
    simpl.
  - reflexivity.
  - inversion_clear Hb. f_equal. divmod.
  - inversion_clear Hb as [|? ? Ha Hb']. inversion_clear Hb'.
    f_equal; [divmod|]. f_equal. divmod.
  - inversion_clear Hb as [|? ? Ha Hb']. inversion_clear Hb' as [|? ? Hb Hc'].
    inversion_clear Hc' as [|? ? Hc Hl].
    f_equal; [divmod|]. f_equal; [divmod|]. f_equal; [divmod|].
    now apply IH.
Qed.

Lemma sextets_alphabet ns :
  Forall (fun n => n < 64) ns -> sextets (map alphabet ns) = Some ns.
Proof.
  induction 1 as [|n ns Hn _ IH]; simpl; [reflexivity|].
  now rewrite sextet_alphabet, IH.
Qed.

Lemma alphabet_kept ns :
  Forall (fun n => n < 64) ns ->
  List.filter (fun c => negb (isAsciiWhitespace c)) (map alphabet ns)
  = map alphabet ns.
Proof.
  induction 1 as [|n ns Hn _ IH]; simpl; [reflexivity|].
  destruct (sextet_not_whitespace _ _ (sextet_alphabet n Hn)) as [-> _].
  simpl. now rewrite IH.
Qed.

Lemma padding_kept len :
  List.filter (fun c => negb (isAsciiWhitespace c)) (padding len)
  = padding len.
Proof. unfold padding. now destruct (len mod 3)%nat as [|[|[|?]]]. Qed.

Lemma padding_step len : padding (S (S (S len))) = padding len.
Proof.
  unfold padding. replace (S (S (S len))) with (len + 1 * 3)%nat by lia.
  now rewrite Nat.Div0.mod_add.
Qed.

(** The digits and the padding of an encoding fill groups of four, and
    the digits alone never leave a group of one. *)
Lemma encode_groups bs :
  ((length (sixes bs) + length (padding (length bs))) mod 4 = 0
   /\ length (sixes bs) mod 4 <> 1)%nat.
Proof.
  induction bs as [| a | a b | a b c l IH] using triples_ind.
  - split; [reflexivity|discriminate].
  - split; [reflexivity|discriminate].
  - split; [reflexivity|discriminate].
  - cbn [sixes length]. rewrite padding_step.
    replace (S (S (S (S (length (sixes l)))))
               + length (padding (length l)))%nat
      with (length (sixes l) + length (padding (length l)) + 1 * 4)%nat
      by lia.
    replace (S (S (S (S (length (sixes l))))))
      with (length (sixes l) + 1 * 4)%nat by lia.
    now rewrite !Nat.Div0.mod_add.
Qed.

Lemma dropPad_alphabet ns :
  Forall (fun n => n < 64) ns ->
  dropPad (rev (map alphabet ns)) = rev (map alphabet ns).
Proof.
  intros Hns. destruct (rev (map alphabet ns)) as [|c r] eqn:Hrev;
    [reflexivity|].
  assert (In c (map alphabet ns)) as Hc.
  { apply in_rev. rewrite Hrev. now left. }
  apply in_map_iff in Hc as (n & <- & Hn).
  rewrite Forall_forall in Hns. apply list_elem_of_In in Hn.
  destruct (sextet_not_whitespace _ _ (sextet_alphabet n (Hns n Hn)))
    as [_ Hpad].
  simpl. apply N.eqb_neq in Hpad. now rewrite Hpad.
Qed.

Lemma stripPadding_encode bs :
  Forall (fun b => b < 256) bs ->
  stripPadding (encode bs) = map alphabet (sixes bs).
Proof.
  intros Hb. pose proof (sixes_bound bs Hb) as Hns.
  unfold stripPadding, encode.
  rewrite length_app, length_map, (proj1 (encode_groups bs)). simpl.
  rewrite rev_app_distr.
  unfold padding. destruct (length bs mod 3)%nat as [|[|[|?]]]; simpl;
    rewrite ?dropPad_alphabet by assumption;
    rewrite ?dropPad_alphabet by assumption;
    apply rev_involutive.
Qed.

(** Decoding undoes encoding. *)
Lemma atob_encode bs :
  Forall (fun b => b < 256) bs -> atob (encode bs) = Some bs.
Proof.
  intros Hb. pose proof (sixes_bound bs Hb) as Hns. unfold atob.
  assert (List.filter (fun c => negb (isAsciiWhitespace c)) (encode bs)
          = encode bs) as ->.
  { unfold encode. now rewrite List.filter_app, alphabet_kept, padding_kept. }
  rewrite stripPadding_encode by assumption. rewrite length_map.
  destruct (Nat.eqb_spec (length (sixes bs) mod 4) 1) as [H|_].
  - now apply (proj2 (encode_groups bs)) in H.
  - rewrite sextets_alphabet by assumption. simpl.
    now rewrite bytesOf_sixes.
Qed.

Lemma bytes_bound (pcm : list Init.Byte.byte) :
  Forall (fun b => b < 256) (map Strings.Byte.to_N pcm).
Proof.
  apply Forall_forall. intros b Hb. apply list_elem_of_In in Hb.
  apply in_map_iff in Hb as (x & <- & _).
  pose proof (Strings.Byte.to_N_bounded x). lia.
Qed.

Lemma atob_btoa pcm : atob (btoa pcm) = Some (map Strings.Byte.to_N pcm).
Proof. apply atob_encode, bytes_bound. Qed.

End Base64Facts.

Module WavFacts.
Import Wav.
Local Open Scope N_scope.

(** The thirteen writes of [pcmToWavBlob] fill the first 44 bytes of a
    fresh buffer with the canonical header, and nothing else. *)
Lemma header_written {A} (k : list N -> option A) (len : N) (rest : list N) :
  (view ← writeString (newArrayBuffer 44 ++ rest) 0 (js "RIFF");
   view ← setUint32 view 4 (36 + len);
   view ← writeString view 8 (js "WAVE");
   view ← writeString view 12 (js "fmt ");
   view ← setUint32 view 16 16;
   view ← setUint16 view 20 1;
   view ← setUint16 view 22 1;
   view ← setUint32 view 24 24000;
   view ← setUint32 view 28 (24000 * 2);
   view ← setUint16 view 32 2;
   view ← setUint16 view 34 16;
   view ← writeString view 36 (js "data");
   view ← setUint32 view 40 len;
   k view)
  = k (canonicalHeader len ++ rest).
Proof. reflexivity. Qed.

Lemma length_canonicalHeader len : length (canonicalHeader len) = 44%nat.
Proof. reflexivity. Qed.

(** The copy loop overwrites the zeros after the header, one byte per
    character, and touches nothing else. *)
Lemma copyChars_spec (header written zeros : list N) (chars : jsstring) :
  length header = 44%nat -> length zeros = length chars ->
  copyChars (header ++ written ++ zeros) (length written) chars
  = header ++ written ++ map (fun c => c mod 256) chars.
Proof.
  intros Hh. revert written zeros.
  induction chars as [|c chars IH]; intros written zeros Hz.
  - destruct zeros; [reflexivity|discriminate].
  - destruct zeros as [|z zeros]; [discriminate|].
    injection Hz as Hz. cbn [copyChars map].
    rewrite <- Hh, insert_app_r.
    replace (length written) with (length written + 0)%nat at 1 by lia.
    rewrite insert_app_r. cbn [list_insert insert].
    replace (S (length written)) with (length (written ++ [c mod 256]))
      by (rewrite length_app; simpl; lia).
    replace (header ++ written ++ c mod 256 :: zeros)
      with (header ++ (written ++ [c mod 256]) ++ zeros)
      by now rewrite <- (app_assoc written).
    rewrite (IH _ _ Hz). now rewrite <- (app_assoc written).
Qed.

Lemma bytes_mod (pcm : list Init.Byte.byte) :
  map (fun c => c mod 256) (map Strings.Byte.to_N pcm)
  = map Strings.Byte.to_N pcm.
Proof.
  rewrite map_map. apply map_ext. intros b.
  pose proof (Strings.Byte.to_N_bounded b). apply N.mod_small. lia.
Qed.

Lemma fromLittleEndian_4 v :
  fromLittleEndian (littleEndian 4 v) = v mod 4294967296.
Proof.
  cbn [littleEndian fromLittleEndian]. Base64Facts.divmod.
Qed.

(** What the decoder builds. *)
Lemma pcmToWavBlob_btoa (pcm : list Init.Byte.byte) :
  pcmToWavBlob (Base64.btoa pcm)
  = Some (canonicalHeader (N.of_nat (length pcm))
          ++ map Strings.Byte.to_N pcm).
Proof.
  unfold pcmToWavBlob. rewrite Base64Facts.atob_btoa. cbn [mbind option_bind].
  rewrite length_map.
  etransitivity.
  { exact (header_written
             (fun view => Some (copyChars view 0 (map Strings.Byte.to_N pcm)))
             (N.of_nat (length pcm)) (replicate (length pcm) 0)). }
  cbv beta. f_equal.
  rewrite <- (bytes_mod pcm) at 2.
  apply (copyChars_spec (canonicalHeader (N.of_nat (length pcm))) []).
  - reflexivity.
  - now rewrite length_replicate, length_map.
Qed.

(** The reader on a file that starts with the canonical header. *)
Lemma read_canonical (data : list N) :
  N.of_nat (length data) < 4294967296 ->
  read (canonicalHeader (N.of_nat (length data)) ++ data)
  = Some {| riffSize := (36 + N.of_nat (length data)) mod 4294967296;
            audioFormat := 1; numChannels := 1;
            sampleRate := 24000; byteRate := 48000; blockAlign := 2;
            bitsPerSample := 16;
            dataSize := N.of_nat (length data);
            samples := data |}.
Proof.
  intros Hlen. set (len := N.of_nat (length data)) in *.
  set (file := canonicalHeader len ++ data).
  assert (getUint32 file 40 = len) as H40.
  { change (getUint32 file 40)
      with (fromLittleEndian (littleEndian 4 (len mod 4294967296))).
    rewrite fromLittleEndian_4, N.Div0.mod_mod. now apply N.mod_small. }
  assert (getUint32 file 4 = (36 + len) mod 4294967296) as H4.
  { change (getUint32 file 4)
      with (fromLittleEndian
              (littleEndian 4 ((36 + len) mod 4294967296))).
    rewrite fromLittleEndian_4. now rewrite N.Div0.mod_mod. }
  assert (length file - 44 = length data)%nat as Hl.
  { unfold file. rewrite length_app, length_canonicalHeader. lia. }
  unfold read. rewrite H40, H4, Hl.
  change (tagAt file 0 "RIFF") with true.
  change (tagAt file 8 "WAVE") with true.
  change (tagAt file 12 "fmt ") with true.
  change (tagAt file 36 "data") with true.
  change (getUint32 file 16) with 16.
  change (getUint16 file 20) with 1.
  change (getUint16 file 22) with 1.
  change (getUint32 file 24) with 24000.
  change (getUint32 file 28) with 48000.
  change (getUint16 file 32) with 2.
  change (getUint16 file 34) with 16.
  change (drop 44 file) with data.
  fold len. rewrite N.leb_refl. cbn [andb N.eqb Pos.eqb].
  subst len. rewrite Nat2N.id, firstn_all. reflexivity.
Qed.

End WavFacts.

(** C2. Audio decoding round trip: for a buffer of [L] PCM bytes, with [L]
    below [2^32] as the 32-bit length fields of the header require, the
    container that [pcmToWavBlob] builds from the base64 encoding of the
    buffer has 44 + [L] bytes; a reader finds one channel, the sample rate
    24000, 16 bits per sample, the byte rate 24000 * 2, the block align 2
    and a data chunk of [L] bytes; and the bytes after the 44-byte header are
    the bytes of the buffer. *)
Theorem pcmToWavBlob_round_trip (pcm : list Init.Byte.byte) :
  (N.of_nat (length pcm) < 4294967296)%N ->
  exists file,
    Wav.pcmToWavBlob (Base64.btoa pcm) = Some file
    /\ length file = (44 + length pcm)%nat
    /\ drop 44 file = map Strings.Byte.to_N pcm
    /\ Wav.read file
       = Some {| Wav.riffSize :=
                   ((36 + N.of_nat (length pcm)) mod 4294967296)%N;
                 Wav.audioFormat := 1%N;
                 Wav.numChannels := 1%N;
                 Wav.sampleRate := 24000%N;
                 Wav.byteRate := (24000 * 2)%N;
                 Wav.blockAlign := 2%N;
                 Wav.bitsPerSample := 16%N;
                 Wav.dataSize := N.of_nat (length pcm);
                 Wav.samples := map Strings.Byte.to_N pcm |}.
Proof.
  intros Hlen. eexists. split; [apply WavFacts.pcmToWavBlob_btoa|].
  split; [|split].
  - rewrite length_app, WavFacts.length_canonicalHeader, length_map.
    reflexivity.
  - reflexivity.
  - rewrite <- (length_map Strings.Byte.to_N pcm) in *.
    now rewrite WavFacts.read_canonical.
Qed.

(** Six bytes of samples. *)
Lemma pcmToWavBlob_round_trip_witness :
  exists file,
    Wav.pcmToWavBlob
      (Base64.btoa [Init.Byte.x00; Init.Byte.x01; Init.Byte.xff;
                    Init.Byte.x7f; Init.Byte.x80; Init.Byte.x10])
    = Some file
    /\ drop 44 file = [0; 1; 255; 127; 128; 16]%N
    /\ Wav.dataSize <$> Wav.read file = Some 6%N.
Proof.
  destruct (pcmToWavBlob_round_trip
              [Init.Byte.x00; Init.Byte.x01; Init.Byte.xff;
               Init.Byte.x7f; Init.Byte.x80; Init.Byte.x10])
    as (file & Hfile & _ & Hdata & Hread).
  - reflexivity.
  - exists file. split; [exact Hfile|]. split; [exact Hdata|].
    rewrite Hread. reflexivity.
Defined.

(** ** The sample run, evaluated *)

(** The calls of the sample run, in the order of issue: the key check, the
    deck request, the image requests of positions 1 and 4, the audio
    requests of positions 0, 1, 2 and 5. *)
Example sample_run_calls :
  (App.generateContent (Some true) Fixtures.deckText Fixtures.deckImage
     Fixtures.slideAudio (js "supply and demand") Size2K App.initial).2
  = [ App.HasSelectedApiKey;
      App.GenerateDeckText (js "supply and demand");
      App.GenerateDeckImage 1 (js "diagram of supply curve") Size2K;
      App.GenerateDeckImage 4 (js "diagram of demand curve") Size2K;
      App.GenerateSlideAudio 0 (js "Welcome.") American;
      App.GenerateSlideAudio 1 (js "Look at the diagram.") American;
      App.GenerateSlideAudio 2 (js "No picture here.") American;
      App.GenerateSlideAudio 5 (js "Goodbye.") American ].
Proof. reflexivity. Qed.

(** [atob] accepts white space and missing padding, and rejects a length
    that leaves a single character. *)
Example atob_samples :
  Base64.atob (js "SGVsbG8=") = Some (js "Hello")
  /\ Base64.atob (js " SGVs bG8 ") = Some (js "Hello")
  /\ Base64.atob (js "SGVsbG8==") = None
  /\ Base64.atob (js "SGVs*G8=") = None.
Proof. repeat split. Qed.

(** The container of the five bytes of "Hello". *)
Example pcmToWavBlob_sample :
  Wav.pcmToWavBlob (js "SGVsbG8=")
  = Some ([82; 73; 70; 70; 41; 0; 0; 0; 87; 65; 86; 69;
           102; 109; 116; 32; 16; 0; 0; 0; 1; 0; 1; 0;
           192; 93; 0; 0; 128; 187; 0; 0; 2; 0; 16; 0;
           100; 97; 116; 97; 5; 0; 0; 0;
           72; 101; 108; 108; 111]%N).
Proof. reflexivity. Qed.

(** [JSON.parse] on well-formed and on malformed texts. *)
Example parse_samples :
  Json.parse (Json.text "{'a': [1, -2.50e3, true, null, 'x\ny']}")
  = Some (Json.Object
            [(js "a",
              Json.Array [Json.Number 1 0; Json.Number (-250) 1;
                          Json.Bool true; Json.Null;
                          Json.String (js "x" ++ [10%N] ++ js "y")])])
  /\ Json.parse (Json.text "[1,]") = None
  /\ Json.parse (Json.text "{'a':1} x") = None
  /\ Json.parse (Json.text "01") = None
  /\ Json.parse (Json.text "") = None.
Proof. repeat split. Qed.
